(** * ForeachChaseLink: chasing position-addressed links of an AtomSpace

    A shallow embedding of [src/AtomSpace/ForeachChaseLink.h]: the template
    class [PrivateUseOnlyChaseLink<T>] with its two public entry points
    [follow_link] and [follow_link_lh], its two private callbacks
    [find_link_type] and [pursue_link], and the four free wrapper functions
    [follow_binary_link] / [backtrack_binary_link].

    The class keeps its search parameters and scratch values in member
    fields and hands its own member functions to the two enumerators of
    [Foreach.h]; the embedding therefore threads the object explicitly
    through a small state monad.  The visitor is a member function of a user
    object of class [T], reached through the pointer [user_data]; user
    objects live in a heap indexed by their address. *)

From Stdlib Require Import ZArith List Bool Lia.
Import ListNotations.
Open Scope Z_scope.

(** ** A state monad with an undefined outcome *)

(** [None] stands for undefined behaviour of the C++ program (the only
    instance in this header is a call through a null pointer to member). *)
Definition M (S A : Type) : Type := S -> option (A * S).

Definition ret {S A : Type} (a : A) : M S A := fun s => Some (a, s).

Definition bind {S A B : Type} (m : M S A) (f : A -> M S B) : M S B :=
  fun s => match m s with
           | Some (a, s') => f a s'
           | None => None
           end.

Definition undefined {S A : Type} : M S A := fun _ => None.

Notation "x <- m ;; k" := (bind m (fun x => k))
  (at level 61, m at next level, right associativity).
Notation "m ;; k" := (bind m (fun _ => k))
  (at level 61, right associativity).

(** ** Handles, type tags and pointers *)

(** [Handle] is an opaque reference to an atom (the header's usage example
    prints it as an [unsigned long]). *)
Definition Handle : Type := N.

(** The header's [Type]: the type tag of an atom. *)
Definition AtomType : Type := N.

(** The address of a live [Atom] object.  A C++ [Atom *] is an
    [option AtomPtr], with [None] for [NULL]. *)
Definition AtomPtr : Type := positive.

(** The address of a user object ([T *]). *)
Definition DataPtr : Type := N.

(** Pointer comparison [p == q] on [Atom *]. *)
Definition ptr_eqb (p q : option AtomPtr) : bool :=
  match p, q with
  | Some a, Some b => Pos.eqb a b
  | None, None => true
  | _, _ => false
  end.

(** Modelled from the spec: the store behind [Atom.h], [Link.h], [TLB.h] and
    [Foreach.h], none of which is part of this header.  It is read-only
    here.  [TLB_getAtom] is the lookup by handle ("resolve(Handle) -> Atom
    or Absent"), [TLB_getHandle] recovers the handle of an atom object
    ("identityOf"), [getType] is the exact type tag, [incoming_set h] lists
    the links that have the atom designated by [h] among their members, in
    the order the store enumerates them, and [outgoing_set h] is the ordered
    member sequence, indexed from 0, of the link designated by [h]. *)
Record AtomSpace : Type := {
  TLB_getAtom : Handle -> option AtomPtr;
  TLB_getHandle : AtomPtr -> Handle;
  getType : AtomPtr -> AtomType;
  incoming_set : Handle -> list AtomPtr;
  outgoing_set : Handle -> list AtomPtr
}.

(** ** Observations *)

(** The trace is ghost state: no definition below reads it.  It records each
    candidate link handed to [find_link_type] and each visitor invocation,
    with the candidate link that produced it, the arguments the visitor
    received (the target handle, and the link handle in the link-aware form)
    and the boolean the visitor returned. *)
Inductive Event : Type :=
| Examine (link : AtomPtr)
| Visit (link : AtomPtr) (target : Handle) (link_h : option Handle) (rc : bool).

Section Chase.

(** The template parameter: the class of the user object. *)
Context {T : Type}.

(** The part of the program state outside the chaser object: the user
    objects, by address, and the trace. *)
Record World : Type := {
  heap : DataPtr -> T;
  trace : list Event
}.

(** The member fields of [PrivateUseOnlyChaseLink<T>], in declaration order.
    A pointer to member function is a function on the receiver's state;
    [None] is the null pointer to member. *)
Record ChaseLink : Type := {
  link_type : AtomType;
  from_atom : option AtomPtr;
  to_atom : option AtomPtr;
  position_from : Z;
  position_to : Z;
  cnt : Z;
  user_callback : option (Handle -> T -> bool * T);
  user_callback_lh : option (Handle -> Handle -> T -> bool * T);
  user_data : DataPtr
}.

(** [cnt = c;] *)
Definition set_cnt (c : Z) (cl : ChaseLink) : ChaseLink :=
  {| link_type := link_type cl; from_atom := from_atom cl;
     to_atom := to_atom cl; position_from := position_from cl;
     position_to := position_to cl; cnt := c;
     user_callback := user_callback cl;
     user_callback_lh := user_callback_lh cl; user_data := user_data cl |}.

(** [to_atom = a;] *)
Definition set_to_atom (a : option AtomPtr) (cl : ChaseLink) : ChaseLink :=
  {| link_type := link_type cl; from_atom := from_atom cl;
     to_atom := a; position_from := position_from cl;
     position_to := position_to cl; cnt := cnt cl;
     user_callback := user_callback cl;
     user_callback_lh := user_callback_lh cl; user_data := user_data cl |}.

(** The state a member function runs in: the object [*this] and the world. *)
Definition State : Type := (ChaseLink * World)%type.

Definition get_this : M State ChaseLink := fun s => Some (fst s, s).

Definition modify_this (f : ChaseLink -> ChaseLink) : M State unit :=
  fun s => Some (tt, (f (fst s), snd s)).

(** Ghost: append an event to the trace. *)
Definition emit (e : Event) : M State unit :=
  fun s => Some (tt, (fst s, {| heap := heap (snd s);
                                trace := trace (snd s) ++ [e] |})).

Definition heap_store (hp : DataPtr -> T) (p : DataPtr) (t : T) : DataPtr -> T :=
  fun q => if N.eqb q p then t else hp q.

(** [(p->*m)(...)]: run the member function [m] on the object at [p]. *)
Definition call_member (p : DataPtr) (m : T -> bool * T) : M State bool :=
  fun s => let (rc, t') := m (heap (snd s) p) in
           Some (rc, (fst s, {| heap := heap_store (heap (snd s)) p t';
                                trace := trace (snd s) |})).

(** Modelled from the spec: the two enumerators of [Foreach.h], which is not
    part of this header ("produce each related atom, abort early if
    requested"; "supports early termination when the callback signals stop;
    returns whether it was stopped early").  Both hand the atoms to the
    callback one at a time, in order, and stop at the first [true]. *)
Fixpoint foreach_atom (cb : AtomPtr -> M State bool) (l : list AtomPtr)
  : M State bool :=
  match l with
  | [] => ret false
  | a :: l' => rc <- cb a ;; if rc then ret true else foreach_atom cb l'
  end.

Variable sp : AtomSpace.

Definition foreach_incoming_atom (h : Handle) (cb : AtomPtr -> M State bool)
  : M State bool :=
  foreach_atom cb (incoming_set sp h).

Definition foreach_outgoing_atom (h : Handle) (cb : AtomPtr -> M State bool)
  : M State bool :=
  foreach_atom cb (outgoing_set sp h).

(** [pursue_link], the callback of the walk over one link's outgoing set.
    [cnt] is a C++ [int]; the model counts in [Z], which agrees with the
    source on every outgoing set of fewer than 2^31 members. *)
Definition pursue_link (atom : AtomPtr) : M State bool :=
  modify_this (fun cl => set_cnt (cnt cl + 1) cl) ;;
  cl <- get_this ;;
  (* The from-slot should be occupied by the node itself. *)
  if position_from cl =? cnt cl then
    if negb (ptr_eqb (from_atom cl) (Some atom)) then
      modify_this (set_to_atom None) ;;
      ret true (* bad match, stop now. *)
    else ret false
  else
    (* The to-slot is the one we're looking for. *)
    (if position_to cl =? cnt cl
     then modify_this (set_to_atom (Some atom))
     else ret tt) ;;
    ret false.

(** [find_link_type], the callback of the walk over the incoming set. *)
Definition find_link_type (link_atom : AtomPtr) : M State bool :=
  emit (Examine link_atom) ;;
  cl <- get_this ;;
  (* Make sure the link is of the specified link type *)
  if negb (N.eqb (link_type cl) (getType sp link_atom)) then ret false
  else
    modify_this (set_cnt (-1)) ;;
    modify_this (set_to_atom None) ;;
    let link_h := TLB_getHandle sp link_atom in
    _ <- foreach_outgoing_atom link_h pursue_link ;;
    cl <- get_this ;;
    match to_atom cl with
    | Some target =>
        match user_callback cl with
        | Some cb =>
            rc <- call_member (user_data cl) (cb (TLB_getHandle sp target)) ;;
            emit (Visit link_atom (TLB_getHandle sp target) None rc) ;;
            ret rc
        | None =>
            match user_callback_lh cl with
            | Some cb =>
                rc <- call_member (user_data cl)
                        (cb (TLB_getHandle sp target) link_h) ;;
                emit (Visit link_atom (TLB_getHandle sp target)
                        (Some link_h) rc) ;;
                ret rc
            | None => undefined
            end
        end
    | None => ret false
    end.

(** [follow_link].  [return NULL] in a function returning [bool] returns
    [false]. *)
Definition follow_link (h : Handle) (ltype : AtomType) (from to : Z)
    (cb : Handle -> T -> bool * T) (data : DataPtr) : M State bool :=
  match TLB_getAtom sp h with
  | None => ret false
  | Some atom =>
      (* Look for incoming links that are of the given type.
         Then grab the thing that they link to. *)
      modify_this (fun cl =>
        {| link_type := ltype; from_atom := Some atom; to_atom := None;
           position_from := from; position_to := to; cnt := cnt cl;
           user_callback := Some cb; user_callback_lh := None;
           user_data := data |}) ;;
      foreach_incoming_atom h find_link_type
  end.

(** [follow_link_lh]: the callback is passed the handle of the link itself
    in the second argument. *)
Definition follow_link_lh (h : Handle) (ltype : AtomType) (from to : Z)
    (cb : Handle -> Handle -> T -> bool * T) (data : DataPtr)
  : M State bool :=
  match TLB_getAtom sp h with
  | None => ret false
  | Some atom =>
      modify_this (fun cl =>
        {| link_type := ltype; from_atom := Some atom; to_atom := None;
           position_from := from; position_to := to; cnt := cnt cl;
           user_callback := None; user_callback_lh := Some cb;
           user_data := data |}) ;;
      foreach_incoming_atom h find_link_type
  end.

(** A member function called on a local object [cl]: the object goes out of
    scope at the end of the caller, which keeps the result and the world. *)
Definition on_local (cl : ChaseLink) (m : M State bool)
  : World -> option (bool * World) :=
  fun w => match m (cl, w) with
           | Some (rc, s) => Some (rc, snd s)
           | None => None
           end.

(** The four wrappers.  Each declares a local [PrivateUseOnlyChaseLink<T> cl]
    without initialising it; [cl] stands for whatever its fields hold. *)
Definition follow_binary_link (cl : ChaseLink) (h : Handle) (ltype : AtomType)
    (cb : Handle -> T -> bool * T) (data : DataPtr) :=
  on_local cl (follow_link h ltype 0 1 cb data).

Definition follow_binary_link_lh (cl : ChaseLink) (h : Handle)
    (ltype : AtomType) (cb : Handle -> Handle -> T -> bool * T)
    (data : DataPtr) :=
  on_local cl (follow_link_lh h ltype 0 1 cb data).

Definition backtrack_binary_link (cl : ChaseLink) (h : Handle)
    (ltype : AtomType) (cb : Handle -> T -> bool * T) (data : DataPtr) :=
  on_local cl (follow_link h ltype 1 0 cb data).

Definition backtrack_binary_link_lh (cl : ChaseLink) (h : Handle)
    (ltype : AtomType) (cb : Handle -> Handle -> T -> bool * T)
    (data : DataPtr) :=
  on_local cl (follow_link_lh h ltype 1 0 cb data).

End Chase.

Arguments World : clear implicits.
Arguments ChaseLink : clear implicits.
Arguments State : clear implicits.

(** ** The scenario of the specification

    Atoms [a], [b], [c] with handles 1, 2, 3; links [L1 = Inheritance(a,b)],
    [L2 = Inheritance(a,c)] and [L3 = Similarity(a,b)] with handles 4, 5, 6.
    Objects sit at addresses unrelated to their handles. *)
Module Scenario.

Definition INHERITANCE_LINK : AtomType := 7%N.
Definition SIMILARITY_LINK : AtomType := 8%N.
Definition CONCEPT_NODE : AtomType := 3%N.

Definition a : AtomPtr := 11%positive.
Definition b : AtomPtr := 12%positive.
Definition c : AtomPtr := 13%positive.
Definition L1 : AtomPtr := 21%positive.
Definition L2 : AtomPtr := 22%positive.
Definition L3 : AtomPtr := 23%positive.

Definition store : AtomSpace := {|
  TLB_getAtom := fun h =>
    match h with
    | 1%N => Some a | 2%N => Some b | 3%N => Some c
    | 4%N => Some L1 | 5%N => Some L2 | 6%N => Some L3
    | _ => None
    end;
  TLB_getHandle := fun p =>
    match p with
    | 11%positive => 1%N | 12%positive => 2%N | 13%positive => 3%N
    | 21%positive => 4%N | 22%positive => 5%N | 23%positive => 6%N
    | _ => 0%N
    end;
  getType := fun p =>
    match p with
    | 21%positive | 22%positive => INHERITANCE_LINK
    | 23%positive => SIMILARITY_LINK
    | _ => CONCEPT_NODE
    end;
  incoming_set := fun h =>
    match h with
    | 1%N => [L1; L2; L3]
    | 2%N => [L1; L3]
    | 3%N => [L2]
    | _ => []
    end;
  outgoing_set := fun h =>
    match h with
    | 4%N => [a; b]
    | 5%N => [a; c]
    | 6%N => [a; b]
    | _ => []
    end
|}.

(** A visitor that appends what it is given to its object and asks for
    more, and one that stops at the first atom. *)
Definition collect (h : Handle) (seen : list Handle) : bool * list Handle :=
  (false, seen ++ [h]).

Definition collect_lh (h l : Handle) (seen : list Handle)
  : bool * list Handle :=
  (false, seen ++ [h]).

Definition first_only (h : Handle) (seen : list Handle)
  : bool * list Handle :=
  (true, seen ++ [h]).

(** A chaser object whose fields hold leftovers, and an initial world. *)
Definition stale : ChaseLink (list Handle) := {|
  link_type := SIMILARITY_LINK; from_atom := Some c; to_atom := Some b;
  position_from := 5; position_to := 7; cnt := 42;
  user_callback := Some first_only; user_callback_lh := Some collect_lh;
  user_data := 9%N |}.

Definition world0 : World (list Handle) :=
  {| heap := fun _ => []; trace := [] |}.

(** What a run leaves behind for inspection: the result, the object at
    [data] and the trace. *)
Definition observe {T : Type} (data : DataPtr)
    (r : option (bool * State T)) : option (bool * T * list Event) :=
  match r with
  | Some (rc, s) => Some (rc, heap (snd s) data, trace (snd s))
  | None => None
  end.

(** A link-aware visitor that keeps both of its arguments, with a chaser
    object and a world for its class of user object. *)
Definition collect_pair (h l : Handle) (seen : list (Handle * Handle))
  : bool * list (Handle * Handle) :=
  (false, seen ++ [(h, l)]).

Definition stale_pair : ChaseLink (list (Handle * Handle)) := {|
  link_type := CONCEPT_NODE; from_atom := None; to_atom := Some c;
  position_from := -3; position_to := 0; cnt := 7;
  user_callback := None; user_callback_lh := None;
  user_data := 1%N |}.

Definition world_pair : World (list (Handle * Handle)) :=
  {| heap := fun _ => []; trace := [] |}.

End Scenario.

(** ** Vocabulary of the statements *)

(** The member at index [i] of an outgoing set; there is none below 0 and
    none at or past the arity. *)
Definition member_at (out : list AtomPtr) (i : Z) : option AtomPtr :=
  if i <? 0 then None else nth_error out (Z.to_nat i).

Definition or_keep (found kept : option AtomPtr) : option AtomPtr :=
  match found with
  | Some a => Some a
  | None => kept
  end.

(** What [to_atom] holds after [pursue_link] has been run over the members
    [l], when the walk starts with [cnt = c] and [to_atom = t] (so the first
    member of [l] has index [c + 1]). *)
Definition walk_to (start : option AtomPtr) (from to c : Z)
    (t : option AtomPtr) (l : list AtomPtr) : option AtomPtr :=
  match member_at l (from - c - 1) with
  | Some x =>
      if ptr_eqb start (Some x)
      then (if to =? from then t else or_keep (member_at l (to - c - 1)) t)
      else None
  | None => or_keep (member_at l (to - c - 1)) t
  end.

(** The target one candidate link yields: [to_atom] after the walk over the
    whole outgoing set [out], started by [find_link_type] with [cnt = -1]
    and [to_atom = NULL]. *)
Definition captured (start : option AtomPtr) (from to : Z)
    (out : list AtomPtr) : option AtomPtr :=
  walk_to start from to (-1) None out.

Section Outcomes.

Context {T : Type} (sp : AtomSpace).

(** A run of a member function from state [s]: it returns [rc], ends in
    [s'] and appends the events [evs] to the trace. *)
Definition runs_to (m : M (State T) bool) (s : State T) (rc : bool)
    (s' : State T) (evs : list Event) : Prop :=
  m s = Some (rc, s') /\ trace (snd s') = trace (snd s) ++ evs.

(** The same for a wrapper, whose chaser object is gone on return. *)
Definition returns_to (f : World T -> option (bool * World T)) (w : World T)
    (rc : bool) (w' : World T) (evs : list Event) : Prop :=
  f w = Some (rc, w') /\ trace w' = trace w ++ evs.

(** The search parameters of a chaser object: every field but the two
    scratch fields [cnt] and [to_atom], which are blanked. *)
Definition forget_scratch (cl : ChaseLink T) : ChaseLink T :=
  set_cnt 0 (set_to_atom None cl).

(** The call [find_link_type] makes once a target is captured: the member
    function bound to its arguments, and the link handle it is given, if
    any.  [None] when both pointers to member are null. *)
Definition visitor_of (cl : ChaseLink T) (target link_h : Handle)
  : option (option Handle * (T -> bool * T)) :=
  match user_callback cl with
  | Some cb => Some (None, cb target)
  | None =>
      match user_callback_lh cl with
      | Some cb => Some (Some link_h, cb target link_h)
      | None => None
      end
  end.

(** What examining one candidate link does to the user objects, what it
    returns to the enumerator and which events it leaves. *)
Inductive link_outcome (cl : ChaseLink T) (link : AtomPtr)
    (hp : DataPtr -> T) : bool -> (DataPtr -> T) -> list Event -> Prop :=
| lo_other_type :
    link_type cl <> getType sp link ->
    link_outcome cl link hp false hp [Examine link]
| lo_no_target :
    link_type cl = getType sp link ->
    captured (from_atom cl) (position_from cl) (position_to cl)
      (outgoing_set sp (TLB_getHandle sp link)) = None ->
    link_outcome cl link hp false hp [Examine link]
| lo_visit (a : AtomPtr) (lh : option Handle) (m : T -> bool * T)
    (rc : bool) (t' : T) :
    link_type cl = getType sp link ->
    captured (from_atom cl) (position_from cl) (position_to cl)
      (outgoing_set sp (TLB_getHandle sp link)) = Some a ->
    visitor_of cl (TLB_getHandle sp a) (TLB_getHandle sp link) = Some (lh, m) ->
    m (hp (user_data cl)) = (rc, t') ->
    link_outcome cl link hp rc (heap_store hp (user_data cl) t')
      [Examine link; Visit link (TLB_getHandle sp a) lh rc].

(** The enumeration of the candidate links, stopping at the first link whose
    examination returns [true]. *)
Inductive chase_run (cl : ChaseLink T) :
    list AtomPtr -> (DataPtr -> T) -> bool -> (DataPtr -> T) ->
    list Event -> Prop :=
| chase_done (hp : DataPtr -> T) : chase_run cl [] hp false hp []
| chase_stop (link : AtomPtr) (rest : list AtomPtr) (hp hp' : DataPtr -> T)
    (evs : list Event) :
    link_outcome cl link hp true hp' evs ->
    chase_run cl (link :: rest) hp true hp' evs
| chase_next (link : AtomPtr) (rest : list AtomPtr)
    (hp hp' hp'' : DataPtr -> T) (rc : bool) (evs evs' : list Event) :
    link_outcome cl link hp false hp' evs ->
    chase_run cl rest hp' rc hp'' evs' ->
    chase_run cl (link :: rest) hp rc hp'' (evs ++ evs').

(** The chaser object as [follow_link] and [follow_link_lh] set it up. *)
Definition search (ltype : AtomType) (atom : AtomPtr) (from to : Z)
    (cb : option (Handle -> T -> bool * T))
    (cb_lh : option (Handle -> Handle -> T -> bool * T)) (data : DataPtr)
  : ChaseLink T :=
  {| link_type := ltype; from_atom := Some atom; to_atom := None;
     position_from := from; position_to := to; cnt := 0;
     user_callback := cb; user_callback_lh := cb_lh; user_data := data |}.

(** The candidate links an event list shows as examined, in order. *)
Fixpoint examined (evs : list Event) : list AtomPtr :=
  match evs with
  | [] => []
  | Examine l :: evs' => l :: examined evs'
  | Visit _ _ _ _ :: evs' => examined evs'
  end.

(** The visitor invocations of an event list: the target handed over and
    the answer, in order. *)
Fixpoint reported (evs : list Event) : list (Handle * bool) :=
  match evs with
  | [] => []
  | Examine _ :: evs' => reported evs'
  | Visit _ t _ rc :: evs' => (t, rc) :: reported evs'
  end.

(** An event of the target-only form, as the link-aware form shows it. *)
Definition with_link_handle (e : Event) : Event :=
  match e with
  | Examine l => Examine l
  | Visit l t _ rc => Visit l t (Some (TLB_getHandle sp l)) rc
  end.

(** What holds of one visitor invocation [Visit l t lh r] of a chase from
    [h]: the candidate [l] is in the incoming set, has exactly the type
    sought, and [t] is the handle of the member at [to] of its outgoing
    set. *)
Definition well_taken (h : Handle) (ltype : AtomType) (to : Z)
    (l : AtomPtr) (t : Handle) : Prop :=
  In l (incoming_set sp h) /\ getType sp l = ltype /\
  exists a, member_at (outgoing_set sp (TLB_getHandle sp l)) to = Some a /\
            t = TLB_getHandle sp a.


(** Exact type filtering, read off the result and the events of a chase
    from [h], whose atom is [start]: no link of another type is visited;
    and of two candidates of different types that both hold the start atom
    at [from], the one of the type sought is visited with its member at
    [to] (unless the visitor answered [true] for some other candidate, which
    halts the chase) and the other is not. *)
Definition type_filtered (h : Handle) (start : option AtomPtr)
    (ltype : AtomType) (from to : Z) (rc : bool) (evs : list Event) : Prop :=
  (forall l, getType sp l <> ltype ->
     forall t lh r, ~ In (Visit l t lh r) evs) /\
  (forall atom l1 l2 a,
     start = Some atom ->
     In l1 (incoming_set sp h) -> In l2 (incoming_set sp h) ->
     member_at (outgoing_set sp (TLB_getHandle sp l1)) from = Some atom ->
     member_at (outgoing_set sp (TLB_getHandle sp l2)) from = Some atom ->
     getType sp l1 = ltype -> getType sp l2 <> ltype ->
     to <> from ->
     member_at (outgoing_set sp (TLB_getHandle sp l1)) to = Some a ->
     ((exists lh r, In (Visit l1 (TLB_getHandle sp a) lh r) evs) \/
      (exists l0 t0 lh0, l0 <> l1 /\ In (Visit l0 t0 lh0 true) evs)) /\
     forall t lh r, ~ In (Visit l2 t lh r) evs).

(** The events show the candidate [l] visited with target [t] and link
    argument [lh], or else show that the visitor answered [true] for some
    other candidate, which halts the chase. *)
Definition reports (l : AtomPtr) (t : Handle) (lh : option Handle)
    (evs : list Event) : Prop :=
  (exists r, In (Visit l t lh r) evs) \/
  (exists l0 t0 lh0, l0 <> l /\ In (Visit l0 t0 lh0 true) evs).

(** What does hold of positions in every chase: a visited link has a member
    at the target position, and if it has a member at the source position,
    that member is the start atom. *)
Definition positions_respected (h : Handle) (from to : Z)
    (evs : list Event) : Prop :=
  forall l t lh r, In (Visit l t lh r) evs ->
    0 <= to < Z.of_nat (length (outgoing_set sp (TLB_getHandle sp l))) /\
    forall x, member_at (outgoing_set sp (TLB_getHandle sp l)) from = Some x ->
              TLB_getAtom sp h = Some x.

(** *** Events and the calls really made

    The events are written by [find_link_type] beside the call; the
    statements that say the visitor is invoked tie them to the user object,
    which only a real call can change. *)

(** The two forms of visitor. *)
Inductive Visitor : Type :=
| TargetOnly (cb : Handle -> T -> bool * T)
| LinkAware (cb : Handle -> Handle -> T -> bool * T).

(** The call an event [Visit _ tg lh _] stands for: the visitor bound to
    the arguments the event shows.  A target-only visitor takes no link
    handle and a link-aware one takes one. *)
Definition call_of (v : Visitor) (tg : Handle) (lh : option Handle)
  : option (T -> bool * T) :=
  match v, lh with
  | TargetOnly cb, None => Some (cb tg)
  | LinkAware cb, Some l => Some (cb tg l)
  | _, _ => None
  end.

(** The events [evs] are the calls made on a user object, [t] before and
    [t'] after: taken in order, every [Visit] is an application of the
    visitor to the arguments the event shows, on the object as the
    previous calls left it, and the answer the event shows is the answer
    of that application; nothing else touches the object. *)
Fixpoint calls_made (v : Visitor) (evs : list Event) (t t' : T) : Prop :=
  match evs with
  | [] => t' = t
  | Examine _ :: evs' => calls_made v evs' t t'
  | Visit _ tg lh rc :: evs' =>
      exists m t1,
        call_of v tg lh = Some m /\ m t = (rc, t1) /\
        calls_made v evs' t1 t'
  end.

(** *** A chase without the chaser object

    The reference the two entry points are compared with: the target a
    candidate link yields, read directly off its type tag and its outgoing
    set, and the enumeration as a fold over the incoming set that threads
    the user object. *)

(** The target the candidate [l] yields in a chase from the atom [start]:
    none unless [l] has exactly the type sought; if [l] has a member at
    [from], that member must be [start] and [to] must differ from [from];
    the target is then the member at [to], if there is one. *)
Definition match_target (start : AtomPtr) (ltype : AtomType) (from to : Z)
    (l : AtomPtr) : option AtomPtr :=
  if N.eqb ltype (getType sp l) then
    match member_at (outgoing_set sp (TLB_getHandle sp l)) from with
    | Some x =>
        if Pos.eqb start x
        then (if to =? from then None
              else member_at (outgoing_set sp (TLB_getHandle sp l)) to)
        else None
    | None => member_at (outgoing_set sp (TLB_getHandle sp l)) to
    end
  else None.

(** Visit the targets of the candidates in order, on the user object [t],
    until the visitor answers [true]. *)
Fixpoint chase_fold (visit : AtomPtr -> AtomPtr -> T -> bool * T)
    (target_of : AtomPtr -> option AtomPtr) (links : list AtomPtr) (t : T)
  : bool * T :=
  match links with
  | [] => (false, t)
  | l :: rest =>
      match target_of l with
      | Some a =>
          let (rc, t') := visit l a t in
          if rc then (true, t') else chase_fold visit target_of rest t'
      | None => chase_fold visit target_of rest t
      end
  end.

(** The candidates that yield a target, each with the handle of its target,
    in the order of the incoming set. *)
Fixpoint matches (target_of : AtomPtr -> option AtomPtr)
    (links : list AtomPtr) : list (AtomPtr * Handle) :=
  match links with
  | [] => []
  | l :: rest =>
      match target_of l with
      | Some a => (l, TLB_getHandle sp a) :: matches target_of rest
      | None => matches target_of rest
      end
  end.

(** The visitor invocations of an event list: the candidate link and the
    target handed over, in order. *)
Fixpoint visits (evs : list Event) : list (AtomPtr * Handle) :=
  match evs with
  | [] => []
  | Examine _ :: evs' => visits evs'
  | Visit l t _ _ :: evs' => (l, t) :: visits evs'
  end.

End Outcomes.

Section Alike.

Context {T1 T2 : Type}.

(** The two visitors are alike up to the link handle: on user objects
    related by [R] they answer the same whatever link handle the
    link-aware one is given, and leave related objects.  The link-aware
    visitor is free to use its second argument for the rest. *)
Definition alike (R : T1 -> T2 -> Prop) (cb : Handle -> T1 -> bool * T1)
    (cb_lh : Handle -> Handle -> T2 -> bool * T2) : Prop :=
  forall tg l t1 t2,
    R t1 t2 ->
    fst (cb tg t1) = fst (cb_lh tg l t2) /\
    R (snd (cb tg t1)) (snd (cb_lh tg l t2)).

End Alike.

Section WalkFacts.

Context {T : Type} (sp : AtomSpace).

Lemma member_at_nil (i : Z) : member_at [] i = None.
Proof.
  unfold member_at. destruct (i <? 0); [reflexivity|].
  destruct (Z.to_nat i); reflexivity.
Qed.

Lemma member_at_head (a : AtomPtr) (l : list AtomPtr) :
  member_at (a :: l) 0 = Some a.
Proof. reflexivity. Qed.

Lemma member_at_tail (a : AtomPtr) (l : list AtomPtr) (i : Z) :
  i <> 0 -> member_at (a :: l) i = member_at l (i - 1).
Proof.
  intros Hi. unfold member_at.
  destruct (Z.ltb_spec i 0) as [Hneg|Hpos];
    destruct (Z.ltb_spec (i - 1) 0) as [Hneg'|Hpos']; try lia; try reflexivity.
  replace (Z.to_nat i) with (S (Z.to_nat (i - 1))) by lia. reflexivity.
Qed.

Lemma member_at_range (l : list AtomPtr) (i : Z) (a : AtomPtr) :
  member_at l i = Some a -> 0 <= i < Z.of_nat (length l).
Proof.
  unfold member_at. destruct (Z.ltb_spec i 0) as [Hneg|Hpos]; [discriminate|].
  intros H. assert (Hlt : (Z.to_nat i < length l)%nat).
  { apply nth_error_Some. rewrite H. discriminate. }
  lia.
Qed.

Lemma member_at_none (l : list AtomPtr) (i : Z) :
  i < 0 \/ Z.of_nat (length l) <= i -> member_at l i = None.
Proof.
  intros Hi. destruct (member_at l i) as [a|] eqn:E; [|reflexivity].
  apply member_at_range in E. lia.
Qed.

Lemma ptr_eqb_eq (p q : option AtomPtr) : ptr_eqb p q = true <-> p = q.
Proof.
  destruct p as [a|], q as [b|]; simpl; try (split; congruence).
  rewrite Pos.eqb_eq. split; congruence.
Qed.

Lemma set_scratch_same (cl : ChaseLink T) :
  set_cnt (cnt cl) (set_to_atom (to_atom cl) cl) = cl.
Proof. destruct cl; reflexivity. Qed.

Lemma scratch_over_cnt (c c0 : Z) (t : option AtomPtr) (cl : ChaseLink T) :
  set_cnt c (set_to_atom t (set_cnt c0 cl)) = set_cnt c (set_to_atom t cl).
Proof. destruct cl; reflexivity. Qed.

Lemma scratch_over_to_atom (c : Z) (t t0 : option AtomPtr) (cl : ChaseLink T) :
  set_cnt c (set_to_atom t (set_to_atom t0 cl)) = set_cnt c (set_to_atom t cl).
Proof. destruct cl; reflexivity. Qed.

Lemma scratch_swap (c : Z) (t : option AtomPtr) (cl : ChaseLink T) :
  set_to_atom t (set_cnt c cl) = set_cnt c (set_to_atom t cl).
Proof. destruct cl; reflexivity. Qed.

(** One call of [pursue_link], by cases on the two position tests. *)
Lemma pursue_link_step (a : AtomPtr) (cl : ChaseLink T) (w : World T) :
  pursue_link a (cl, w) =
  if position_from cl =? cnt cl + 1 then
    if ptr_eqb (from_atom cl) (Some a)
    then Some (false, (set_cnt (cnt cl + 1) cl, w))
    else Some (true, (set_to_atom None (set_cnt (cnt cl + 1) cl), w))
  else if position_to cl =? cnt cl + 1
    then Some (false, (set_to_atom (Some a) (set_cnt (cnt cl + 1) cl), w))
    else Some (false, (set_cnt (cnt cl + 1) cl, w)).
Proof.
  unfold pursue_link, bind, modify_this, get_this, ret. cbn.
  destruct (position_from cl =? cnt cl + 1).
  - destruct (ptr_eqb (from_atom cl) (Some a)); reflexivity.
  - destruct (position_to cl =? cnt cl + 1); reflexivity.
Qed.

(** The walk over an outgoing set always completes, leaves the world
    alone, and changes only the two scratch fields; [to_atom] ends as
    [walk_to] says. *)
Lemma walk_outgoing (l : list AtomPtr) :
  forall (cl : ChaseLink T) (w : World T),
  exists rc c',
    foreach_atom pursue_link l (cl, w) =
    Some (rc, (set_cnt c' (set_to_atom
                 (walk_to (from_atom cl) (position_from cl) (position_to cl)
                    (cnt cl) (to_atom cl) l) cl), w)).
Proof.
  induction l as [|a l IH]; intros cl w.
  - exists false, (cnt cl). unfold walk_to. rewrite !member_at_nil. simpl.
    unfold ret. now rewrite set_scratch_same.
  - cbn [foreach_atom]. unfold bind at 1. rewrite pursue_link_step.
    unfold walk_to at 1.
    destruct (Z.eqb_spec (position_from cl) (cnt cl + 1)) as [Hf|Hf].
    + replace (position_from cl - cnt cl - 1) with 0 by lia.
      rewrite member_at_head.
      destruct (ptr_eqb (from_atom cl) (Some a)) eqn:Heq.
      * destruct (IH (set_cnt (cnt cl + 1) cl) w) as (rc & c' & E).
        exists rc, c'. rewrite E, scratch_over_cnt. do 3 f_equal.
        unfold walk_to. cbn [from_atom position_from position_to cnt to_atom set_cnt].
        rewrite (member_at_none l (position_from cl - (cnt cl + 1) - 1)) by lia.
        destruct (Z.eqb_spec (position_to cl) (position_from cl)) as [Ht|Ht].
        -- now rewrite (member_at_none l (position_to cl - (cnt cl + 1) - 1)) by lia.
        -- rewrite (member_at_tail a l (position_to cl - cnt cl - 1)) by lia.
           now replace (position_to cl - (cnt cl + 1) - 1)
             with (position_to cl - cnt cl - 1 - 1) by lia.
      * exists true, (cnt cl + 1). now rewrite scratch_swap.
    + rewrite (member_at_tail a l (position_from cl - cnt cl - 1)) by lia.
      destruct (Z.eqb_spec (position_to cl) (cnt cl + 1)) as [Ht|Ht].
      * destruct (IH (set_to_atom (Some a) (set_cnt (cnt cl + 1) cl)) w)
          as (rc & c' & E).
        exists rc, c'. rewrite E, scratch_over_to_atom, scratch_over_cnt.
        do 3 f_equal.
        unfold walk_to.
        cbn [from_atom position_from position_to cnt to_atom set_cnt set_to_atom].
        replace (position_from cl - (cnt cl + 1) - 1)
          with (position_from cl - cnt cl - 1 - 1) by lia.
        replace (position_to cl - cnt cl - 1) with 0 by lia.
        rewrite member_at_head.
        rewrite (member_at_none l (position_to cl - (cnt cl + 1) - 1)) by lia.
        destruct (Z.eqb_spec (position_to cl) (position_from cl)) as [Hp|Hp];
          [lia|reflexivity].
      * destruct (IH (set_cnt (cnt cl + 1) cl) w) as (rc & c' & E).
        exists rc, c'. rewrite E, scratch_over_cnt. do 3 f_equal.
        unfold walk_to.
        cbn [from_atom position_from position_to cnt to_atom set_cnt].
        rewrite (member_at_tail a l (position_to cl - cnt cl - 1)) by lia.
        replace (position_from cl - (cnt cl + 1) - 1)
          with (position_from cl - cnt cl - 1 - 1) by lia.
        now replace (position_to cl - (cnt cl + 1) - 1)
          with (position_to cl - cnt cl - 1 - 1) by lia.
Qed.

(** [captured] by cases on the member at the source position. *)
Lemma captured_cases (start : option AtomPtr) (from to : Z)
    (out : list AtomPtr) :
  captured start from to out =
  match member_at out from with
  | Some x =>
      if ptr_eqb start (Some x)
      then (if to =? from then None else member_at out to)
      else None
  | None => member_at out to
  end.
Proof.
  unfold captured, walk_to.
  replace (from - -1 - 1) with from by lia.
  replace (to - -1 - 1) with to by lia.
  destruct (member_at out from) as [x|];
    [destruct (ptr_eqb start (Some x)); [destruct (to =? from)|]|];
    try reflexivity; now destruct (member_at out to).
Qed.

(** A captured target is the member at the target position. *)
Lemma captured_member (start : option AtomPtr) (from to : Z)
    (out : list AtomPtr) (a : AtomPtr) :
  captured start from to out = Some a -> member_at out to = Some a.
Proof.
  rewrite captured_cases.
  destruct (member_at out from) as [x|]; [|trivial].
  destruct (ptr_eqb start (Some x)); [|discriminate].
  destruct (to =? from); [discriminate|trivial].
Qed.

(** Nothing is captured when the two positions coincide. *)
Lemma captured_same_position (start : option AtomPtr) (p : Z)
    (out : list AtomPtr) :
  captured start p p out = None.
Proof.
  rewrite captured_cases. rewrite Z.eqb_refl.
  destruct (member_at out p) as [x|]; [|reflexivity].
  now destruct (ptr_eqb start (Some x)).
Qed.

(** Nothing is captured when another atom sits at the source position. *)
Lemma captured_mismatch (start : option AtomPtr) (from to : Z)
    (out : list AtomPtr) (x : AtomPtr) :
  member_at out from = Some x -> start <> Some x ->
  captured start from to out = None.
Proof.
  intros Hx Hne. rewrite captured_cases, Hx.
  destruct (ptr_eqb start (Some x)) eqn:E; [|reflexivity].
  now apply ptr_eqb_eq in E.
Qed.

(** The member at the target position is captured when the start atom sits
    at a different, source position. *)
Lemma captured_match (from to : Z) (out : list AtomPtr) (x a : AtomPtr) :
  member_at out from = Some x -> to <> from -> member_at out to = Some a ->
  captured (Some x) from to out = Some a.
Proof.
  intros Hx Hne Ha. rewrite captured_cases, Hx.
  replace (ptr_eqb (Some x) (Some x)) with true
    by (symmetry; now apply ptr_eqb_eq).
  destruct (Z.eqb_spec to from); [contradiction|assumption].
Qed.

(** With no member at the source position the identity test is never
    reached, and the member at the target position is captured. *)
Lemma captured_no_source (start : option AtomPtr) (from to : Z)
    (out : list AtomPtr) :
  member_at out from = None ->
  captured start from to out = member_at out to.
Proof. intros Hx. now rewrite captured_cases, Hx. Qed.

End WalkFacts.

Section RunFacts.

Context {T : Type} (sp : AtomSpace).

Lemma forget_scratch_fields (cl cl' : ChaseLink T) :
  forget_scratch cl' = forget_scratch cl ->
  link_type cl' = link_type cl /\ from_atom cl' = from_atom cl /\
  position_from cl' = position_from cl /\ position_to cl' = position_to cl /\
  user_callback cl' = user_callback cl /\
  user_callback_lh cl' = user_callback_lh cl /\ user_data cl' = user_data cl.
Proof.
  destruct cl, cl'; unfold forget_scratch; cbn. intros H.
  inversion H; subst. repeat split.
Qed.

Lemma forget_scratch_set (c : Z) (t : option AtomPtr) (cl : ChaseLink T) :
  forget_scratch (set_cnt c (set_to_atom t cl)) = forget_scratch cl.
Proof. destruct cl; reflexivity. Qed.

Lemma visitor_of_scratch (cl cl' : ChaseLink T) (t l : Handle) :
  forget_scratch cl' = forget_scratch cl ->
  visitor_of cl' t l = visitor_of cl t l.
Proof.
  intros H. apply forget_scratch_fields in H.
  destruct H as (_ & _ & _ & _ & H1 & H2 & _).
  unfold visitor_of. now rewrite H1, H2.
Qed.

(** Examining a link reads none of the scratch fields. *)
Lemma link_outcome_scratch (cl cl' : ChaseLink T) (link : AtomPtr)
    (hp hp' : DataPtr -> T) (rc : bool) (evs : list Event) :
  forget_scratch cl' = forget_scratch cl ->
  link_outcome sp cl link hp rc hp' evs ->
  link_outcome sp cl' link hp rc hp' evs.
Proof.
  intros H Hlo. pose proof (visitor_of_scratch cl cl') as Hv.
  specialize (fun t l => Hv t l H).
  apply forget_scratch_fields in H.
  destruct H as (H1 & H2 & H3 & H4 & _ & _ & H7).
  destruct Hlo as [Hty|Hty Hcap|a lh m rc t' Hty Hcap Hvis Hm].
  - apply lo_other_type. congruence.
  - apply lo_no_target; congruence.
  - rewrite <- H7. apply lo_visit with (m := m).
    + congruence.
    + rewrite H2, H3, H4. exact Hcap.
    + rewrite Hv. exact Hvis.
    + rewrite H7. exact Hm.
Qed.

Lemma chase_run_scratch (cl cl' : ChaseLink T) (links : list AtomPtr)
    (hp hp' : DataPtr -> T) (rc : bool) (evs : list Event) :
  forget_scratch cl' = forget_scratch cl ->
  chase_run sp cl links hp rc hp' evs ->
  chase_run sp cl' links hp rc hp' evs.
Proof.
  intros H Hrun. induction Hrun.
  - constructor.
  - apply chase_stop. eapply link_outcome_scratch; eassumption.
  - eapply chase_next; [eapply link_outcome_scratch|]; eassumption.
Qed.

(** [find_link_type] is defined as soon as one of the two pointers to member
    is set; it keeps the search parameters and does what [link_outcome]
    says. *)
Lemma find_link_type_outcome (link : AtomPtr) (cl : ChaseLink T) (w : World T) :
  visitor_of cl 0%N 0%N <> None ->
  exists rc cl' hp' evs,
    find_link_type sp link (cl, w) =
      Some (rc, (cl', {| heap := hp'; trace := trace w ++ evs |})) /\
    forget_scratch cl' = forget_scratch cl /\
    link_outcome sp cl link (heap w) rc hp' evs.
Proof.
  intros Hset.
  unfold find_link_type, foreach_outgoing_atom.
  unfold bind at 1. unfold emit at 1. cbn [fst snd].
  unfold bind at 1. unfold get_this at 1. cbn [fst snd].
  destruct (N.eqb_spec (link_type cl) (getType sp link)) as [Hty|Hty];
    cbn [negb].
  2:{ exists false, cl, (heap w), [Examine link].
      split; [reflexivity|split; [reflexivity|]].
      now apply lo_other_type. }
  unfold bind at 1. unfold modify_this at 1. cbn [fst snd].
  unfold bind at 1. unfold modify_this at 1. cbn [fst snd].
  unfold bind at 1.
  destruct (walk_outgoing (outgoing_set sp (TLB_getHandle sp link))
              (set_to_atom None (set_cnt (-1) cl))
              {| heap := heap w; trace := trace w ++ [Examine link] |})
    as (rc0 & c' & E).
  rewrite E. clear E.
  cbn [from_atom position_from position_to cnt to_atom set_cnt set_to_atom].
  fold (captured (from_atom cl) (position_from cl) (position_to cl)
          (outgoing_set sp (TLB_getHandle sp link))).
  rewrite scratch_over_to_atom, scratch_over_cnt.
  set (tgt := captured (from_atom cl) (position_from cl) (position_to cl)
                (outgoing_set sp (TLB_getHandle sp link))).
  assert (Htgt : captured (from_atom cl) (position_from cl) (position_to cl)
                   (outgoing_set sp (TLB_getHandle sp link)) = tgt)
    by reflexivity.
  unfold bind at 1. unfold get_this at 1.
  cbn [fst snd to_atom user_callback user_callback_lh user_data
       set_cnt set_to_atom].
  destruct tgt as [a|].
  2:{ exists false, (set_cnt c' (set_to_atom None cl)), (heap w),
        [Examine link].
      split; [reflexivity|split; [apply forget_scratch_set|]].
      now apply lo_no_target. }
  destruct (visitor_of cl (TLB_getHandle sp a) (TLB_getHandle sp link))
    as [[lh m]|] eqn:Hvis.
  2:{ exfalso. apply Hset. unfold visitor_of in *.
      destruct (user_callback cl); [discriminate|].
      destruct (user_callback_lh cl); [discriminate|reflexivity]. }
  destruct (m (heap w (user_data cl))) as [rc t'] eqn:Hm.
  exists rc, (set_cnt c' (set_to_atom (Some a) cl)),
    (heap_store (heap w) (user_data cl) t'),
    [Examine link; Visit link (TLB_getHandle sp a) lh rc].
  split; [|split].
  - unfold visitor_of in Hvis.
    destruct (user_callback cl) as [cb|].
    + injection Hvis as <- <-.
      unfold bind, call_member, emit, ret. cbn [fst snd heap trace].
      rewrite Hm. cbn [fst snd heap trace]. now rewrite <- app_assoc.
    + destruct (user_callback_lh cl) as [cb|]; [|discriminate].
      injection Hvis as <- <-.
      unfold bind, call_member, emit, ret. cbn [fst snd heap trace].
      rewrite Hm. cbn [fst snd heap trace]. now rewrite <- app_assoc.
  - apply forget_scratch_set.
  - now apply lo_visit with (m := m).
Qed.

Lemma visitor_of_set (cl cl' : ChaseLink T) :
  forget_scratch cl' = forget_scratch cl ->
  visitor_of cl 0%N 0%N <> None -> visitor_of cl' 0%N 0%N <> None.
Proof. intros H. now rewrite (visitor_of_scratch cl cl' _ _ H). Qed.

(** The enumeration of the incoming set by [find_link_type] is a
    [chase_run]. *)
Lemma chase_incoming (links : list AtomPtr) :
  forall (cl : ChaseLink T) (w : World T),
  visitor_of cl 0%N 0%N <> None ->
  exists rc cl' hp' evs,
    foreach_atom (find_link_type sp) links (cl, w) =
      Some (rc, (cl', {| heap := hp'; trace := trace w ++ evs |})) /\
    forget_scratch cl' = forget_scratch cl /\
    chase_run sp cl links (heap w) rc hp' evs.
Proof.
  induction links as [|link rest IH]; intros cl w Hset.
  - exists false, cl, (heap w), []. rewrite app_nil_r.
    destruct w as [hp tr]. split; [reflexivity|split; [reflexivity|]].
    constructor.
  - destruct (find_link_type_outcome link cl w Hset)
      as (rc1 & cl1 & hp1 & evs1 & E1 & Hs1 & Hlo).
    cbn [foreach_atom]. unfold bind at 1. rewrite E1.
    destruct rc1.
    + exists true, cl1, hp1, evs1.
      split; [reflexivity|split; [assumption|]].
      now apply chase_stop.
    + destruct (IH cl1 {| heap := hp1; trace := trace w ++ evs1 |}
                  (visitor_of_set cl cl1 Hs1 Hset))
        as (rc & cl' & hp' & evs & E & Hs & Hrun).
      cbn [heap trace] in E, Hrun.
      exists rc, cl', hp', (evs1 ++ evs).
      rewrite E, app_assoc.
      split; [reflexivity|split; [congruence|]].
      eapply chase_next; [eassumption|].
      eapply chase_run_scratch; [|eassumption]. now symmetry.
Qed.

(** [follow_link] on a handle that resolves. *)
Lemma follow_link_chase (h : Handle) (ltype : AtomType) (from to : Z)
    (cb : Handle -> T -> bool * T) (data : DataPtr) (atom : AtomPtr)
    (cl : ChaseLink T) (w : World T) :
  TLB_getAtom sp h = Some atom ->
  exists rc cl' hp' evs,
    follow_link sp h ltype from to cb data (cl, w) =
      Some (rc, (cl', {| heap := hp'; trace := trace w ++ evs |})) /\
    chase_run sp (search ltype atom from to (Some cb) None data)
      (incoming_set sp h) (heap w) rc hp' evs.
Proof.
  intros Hat. unfold follow_link, foreach_incoming_atom. rewrite Hat.
  unfold bind, modify_this. cbn [fst snd].
  match goal with
  | |- context [foreach_atom _ _ (?c, _)] => set (cl0 := c)
  end.
  destruct (chase_incoming (incoming_set sp h) cl0 w)
    as (rc & cl' & hp' & evs & E & _ & Hrun); [discriminate|].
  exists rc, cl', hp', evs. split; [exact E|].
  eapply chase_run_scratch; [|exact Hrun]. reflexivity.
Qed.

(** [follow_link_lh] on a handle that resolves. *)
Lemma follow_link_lh_chase (h : Handle) (ltype : AtomType) (from to : Z)
    (cb : Handle -> Handle -> T -> bool * T) (data : DataPtr)
    (atom : AtomPtr) (cl : ChaseLink T) (w : World T) :
  TLB_getAtom sp h = Some atom ->
  exists rc cl' hp' evs,
    follow_link_lh sp h ltype from to cb data (cl, w) =
      Some (rc, (cl', {| heap := hp'; trace := trace w ++ evs |})) /\
    chase_run sp (search ltype atom from to None (Some cb) data)
      (incoming_set sp h) (heap w) rc hp' evs.
Proof.
  intros Hat. unfold follow_link_lh, foreach_incoming_atom. rewrite Hat.
  unfold bind, modify_this. cbn [fst snd].
  match goal with
  | |- context [foreach_atom _ _ (?c, _)] => set (cl0 := c)
  end.
  destruct (chase_incoming (incoming_set sp h) cl0 w)
    as (rc & cl' & hp' & evs & E & _ & Hrun); [discriminate|].
  exists rc, cl', hp', evs. split; [exact E|].
  eapply chase_run_scratch; [|exact Hrun]. reflexivity.
Qed.

(** On a handle that does not resolve, both entry points return [false] at
    once and touch nothing. *)
Lemma follow_link_unresolved (h : Handle) (ltype : AtomType) (from to : Z)
    (cb : Handle -> T -> bool * T) (data : DataPtr) (s : State T) :
  TLB_getAtom sp h = None ->
  follow_link sp h ltype from to cb data s = Some (false, s).
Proof. intros Hat. unfold follow_link. now rewrite Hat. Qed.

Lemma follow_link_lh_unresolved (h : Handle) (ltype : AtomType) (from to : Z)
    (cb : Handle -> Handle -> T -> bool * T) (data : DataPtr) (s : State T) :
  TLB_getAtom sp h = None ->
  follow_link_lh sp h ltype from to cb data s = Some (false, s).
Proof. intros Hat. unfold follow_link_lh. now rewrite Hat. Qed.

(** *** Events of one examination and of a whole enumeration *)

Lemma link_outcome_events (cl : ChaseLink T) (link : AtomPtr)
    (hp hp' : DataPtr -> T) (rc : bool) (evs : list Event) :
  link_outcome sp cl link hp rc hp' evs ->
  examined evs = [link] /\
  (evs = [Examine link] /\ rc = false /\ hp' = hp \/
   exists a lh m,
     link_type cl = getType sp link /\
     captured (from_atom cl) (position_from cl) (position_to cl)
       (outgoing_set sp (TLB_getHandle sp link)) = Some a /\
     visitor_of cl (TLB_getHandle sp a) (TLB_getHandle sp link) = Some (lh, m) /\
     evs = [Examine link; Visit link (TLB_getHandle sp a) lh rc]).
Proof.
  intros [Hty|Hty Hcap|a lh m rc' t' Hty Hcap Hvis Hm].
  - split; [reflexivity|]. left. auto.
  - split; [reflexivity|]. left. auto.
  - split; [reflexivity|]. right. exists a, lh, m. auto.
Qed.

(** Every visitor invocation of an enumeration comes from one of its
    candidate links, of the type sought, with a captured target. *)
Lemma chase_run_visit (cl : ChaseLink T) (links : list AtomPtr)
    (hp hp' : DataPtr -> T) (rc : bool) (evs : list Event) :
  chase_run sp cl links hp rc hp' evs ->
  forall l t lh r, In (Visit l t lh r) evs ->
    In l links /\ link_type cl = getType sp l /\
    exists a m,
      captured (from_atom cl) (position_from cl) (position_to cl)
        (outgoing_set sp (TLB_getHandle sp l)) = Some a /\
      t = TLB_getHandle sp a /\
      visitor_of cl t (TLB_getHandle sp l) = Some (lh, m).
Proof.
  assert (Hone : forall link hp hp' rc evs,
    link_outcome sp cl link hp rc hp' evs ->
    forall l t lh r, In (Visit l t lh r) evs ->
      l = link /\ link_type cl = getType sp l /\
      exists a m,
        captured (from_atom cl) (position_from cl) (position_to cl)
          (outgoing_set sp (TLB_getHandle sp l)) = Some a /\
        t = TLB_getHandle sp a /\
        visitor_of cl t (TLB_getHandle sp l) = Some (lh, m)).
  { intros link hp0 hp1 rc0 evs0 Hlo l t lh r Hin.
    apply link_outcome_events in Hlo.
    destruct Hlo as [_ [(-> & _ & _)|(a & lh' & m & Hty & Hcap & Hvis & ->)]].
    - destruct Hin as [Hin|[]]; discriminate.
    - destruct Hin as [Hin|[Hin|[]]]; [discriminate|].
      injection Hin as <- <- <- <-. split; [reflexivity|].
      split; [assumption|]. exists a, m. auto. }
  intros Hrun. induction Hrun as [hp|link rest hp hp' evs Hlo
    |link rest hp hp' hp'' rc evs evs' Hlo Hrun IH]; intros l t lh r Hin.
  - destruct Hin.
  - destruct (Hone _ _ _ _ _ Hlo _ _ _ _ Hin) as (-> & Hrest).
    split; [now left|exact Hrest].
  - apply in_app_or in Hin. destruct Hin as [Hin|Hin].
    + destruct (Hone _ _ _ _ _ Hlo _ _ _ _ Hin) as (-> & Hrest).
      split; [now left|exact Hrest].
    + destruct (IH _ _ _ _ Hin) as (Hl & Hrest).
      split; [now right|exact Hrest].
Qed.


Lemma reported_app (evs evs' : list Event) :
  reported (evs ++ evs') = reported evs ++ reported evs'.
Proof.
  induction evs as [|[l|l t lh r] evs IH]; cbn; [reflexivity|assumption|].
  now rewrite IH.
Qed.



(** A candidate of the type sought with a captured target is visited, unless
    the visitor answered [true] for another candidate. *)
Lemma chase_run_reaches (cl : ChaseLink T) (links : list AtomPtr)
    (hp hp' : DataPtr -> T) (rc : bool) (evs : list Event) :
  chase_run sp cl links hp rc hp' evs ->
  forall l a,
    In l links -> link_type cl = getType sp l ->
    captured (from_atom cl) (position_from cl) (position_to cl)
      (outgoing_set sp (TLB_getHandle sp l)) = Some a ->
    (exists lh r, In (Visit l (TLB_getHandle sp a) lh r) evs) \/
    (exists l0 t0 lh0, l0 <> l /\ In (Visit l0 t0 lh0 true) evs).
Proof.
  assert (Hhere : forall l a hp hp' rc evs,
    link_outcome sp cl l hp rc hp' evs ->
    link_type cl = getType sp l ->
    captured (from_atom cl) (position_from cl) (position_to cl)
      (outgoing_set sp (TLB_getHandle sp l)) = Some a ->
    exists lh, In (Visit l (TLB_getHandle sp a) lh rc) evs).
  { intros l a hp0 hp1 rc0 evs0 Hlo Hty Hcap.
    inversion Hlo as [Hne|_ Hnone|a' lh m rc' t' _ Hcap' Hvis Hm]; subst;
      [congruence|congruence|].
    exists lh. right. left. congruence. }
  intros Hrun. induction Hrun as [hp|link rest hp hp' evs Hlo
    |link rest hp hp' hp'' rc evs evs' Hlo Hrun IH]; intros l a Hin Hty Hcap.
  - destruct Hin.
  - destruct (Pos.eq_dec link l) as [->|Hne].
    + left. destruct (Hhere _ _ _ _ _ _ Hlo Hty Hcap) as (lh & Hv).
      now exists lh, true.
    + right. apply link_outcome_events in Hlo.
      destruct Hlo as [_ [(_ & Hf & _)|(a0 & lh0 & m & _ & _ & _ & ->)]];
        [discriminate|].
      exists link, (TLB_getHandle sp a0), lh0. split; [exact Hne|].
      right. now left.
  - destruct Hin as [->|Hin].
    + left. destruct (Hhere _ _ _ _ _ _ Hlo Hty Hcap) as (lh & Hv).
      exists lh, false. apply in_or_app. now left.
    + destruct (IH l a Hin Hty Hcap) as [(lh & r & Hv)|(l0 & t0 & lh0 & Hne & Hv)].
      * left. exists lh, r. apply in_or_app. now right.
      * right. exists l0, t0, lh0. split; [exact Hne|].
        apply in_or_app. now right.
Qed.

(** When no candidate of the type sought yields a target, the enumeration
    runs to the end without a single visitor invocation. *)
Lemma chase_run_no_capture (cl : ChaseLink T) (links : list AtomPtr)
    (hp hp' : DataPtr -> T) (rc : bool) (evs : list Event) :
  (forall l, In l links -> link_type cl = getType sp l ->
     captured (from_atom cl) (position_from cl) (position_to cl)
       (outgoing_set sp (TLB_getHandle sp l)) = None) ->
  chase_run sp cl links hp rc hp' evs ->
  rc = false /\ hp' = hp /\ reported evs = [] /\ examined evs = links.
Proof.
  intros Hnone Hrun.
  induction Hrun as [hp|link rest hp hp' evs Hlo
    |link rest hp hp' hp'' rc evs evs' Hlo Hrun IH].
  - auto.
  - exfalso.
    inversion Hlo as [Hne|Hty Hcap|a lh m rc' t' Hty Hcap Hvis Hm]; subst.
    rewrite (Hnone link (or_introl eq_refl) Hty) in Hcap. discriminate.
  - assert (Hfirst : hp' = hp /\ evs = [Examine link]).
    { inversion Hlo as [Hne|Hty Hcap|a lh m rc' t' Hty Hcap Hvis Hm]; subst;
        auto.
      rewrite (Hnone link (or_introl eq_refl) Hty) in Hcap. discriminate. }
    destruct Hfirst as (-> & ->).
    destruct IH as (-> & -> & Hrep & Hex).
    { intros l Hin. apply Hnone. now right. }
    cbn. rewrite Hrep, Hex. auto.
Qed.

(** Examining a link, and the whole enumeration, are functions of the
    search parameters and the user objects. *)
Lemma link_outcome_deterministic (cl : ChaseLink T) (link : AtomPtr)
    (hp hp1 hp2 : DataPtr -> T) (rc1 rc2 : bool) (evs1 evs2 : list Event) :
  link_outcome sp cl link hp rc1 hp1 evs1 ->
  link_outcome sp cl link hp rc2 hp2 evs2 ->
  rc1 = rc2 /\ hp1 = hp2 /\ evs1 = evs2.
Proof.
  intros H1 H2.
  inversion H1 as [Hne|Hty Hcap|a lh m rc t' Hty Hcap Hvis Hm]; subst;
    inversion H2 as [Hne'|Hty' Hcap'|a' lh' m' rc' t'' Hty' Hcap' Hvis' Hm'];
    subst; try congruence; auto.
  assert (a' = a) by congruence. subst a'.
  assert (lh' = lh /\ m' = m) as (-> & ->) by (split; congruence).
  assert (rc2 = rc1 /\ t'' = t') as (-> & ->) by (split; congruence).
  auto.
Qed.

Lemma chase_run_deterministic (cl : ChaseLink T) (links : list AtomPtr)
    (hp hp1 : DataPtr -> T) (rc1 : bool) (evs1 : list Event) :
  chase_run sp cl links hp rc1 hp1 evs1 ->
  forall hp2 rc2 evs2,
    chase_run sp cl links hp rc2 hp2 evs2 ->
    rc1 = rc2 /\ hp1 = hp2 /\ evs1 = evs2.
Proof.
  intros Hrun. induction Hrun as [hp|link rest hp hp' evs Hlo
    |link rest hp hp' hp'' rc evs evs' Hlo Hrun IH]; intros hp2 rc2 evs2 H2.
  - inversion H2; subst. auto.
  - inversion H2 as [|? ? ? ? ? Hlo2|? ? ? hpm ? ? evsa evsb Hlo2 Hrun2]; subst.
    + destruct (link_outcome_deterministic _ _ _ _ _ _ _ _ _ Hlo Hlo2)
        as (_ & -> & ->). auto.
    + destruct (link_outcome_deterministic _ _ _ _ _ _ _ _ _ Hlo Hlo2)
        as (Hrc & _). discriminate.
  - inversion H2 as [|? ? ? ? ? Hlo2|? ? ? hpm ? ? evsa evsb Hlo2 Hrun2]; subst.
    + destruct (link_outcome_deterministic _ _ _ _ _ _ _ _ _ Hlo Hlo2)
        as (Hrc & _). discriminate.
    + destruct (link_outcome_deterministic _ _ _ _ _ _ _ _ _ Hlo Hlo2)
        as (_ & -> & ->).
      destruct (IH _ _ _ Hrun2) as (-> & -> & ->). auto.
Qed.


(** *** The two entry points, resolved or not *)

Lemma follow_link_runs (h : Handle) (ltype : AtomType) (from to : Z)
    (cb : Handle -> T -> bool * T) (data : DataPtr) (s : State T) :
  exists rc s' evs,
    runs_to (follow_link sp h ltype from to cb data) s rc s' evs /\
    match TLB_getAtom sp h with
    | None => rc = false /\ s' = s /\ evs = []
    | Some atom =>
        chase_run sp (search ltype atom from to (Some cb) None data)
          (incoming_set sp h) (heap (snd s)) rc (heap (snd s')) evs
    end.
Proof.
  destruct s as [cl w]. destruct (TLB_getAtom sp h) as [atom|] eqn:Hat.
  - destruct (follow_link_chase h ltype from to cb data atom cl w Hat)
      as (rc & cl' & hp' & evs & E & Hrun).
    exists rc, (cl', {| heap := hp'; trace := trace w ++ evs |}), evs.
    split; [split; [exact E|reflexivity]|exact Hrun].
  - exists false, (cl, w), []. split; [split|auto].
    + now apply follow_link_unresolved.
    + cbn. now rewrite app_nil_r.
Qed.

Lemma follow_link_lh_runs (h : Handle) (ltype : AtomType) (from to : Z)
    (cb : Handle -> Handle -> T -> bool * T) (data : DataPtr) (s : State T) :
  exists rc s' evs,
    runs_to (follow_link_lh sp h ltype from to cb data) s rc s' evs /\
    match TLB_getAtom sp h with
    | None => rc = false /\ s' = s /\ evs = []
    | Some atom =>
        chase_run sp (search ltype atom from to None (Some cb) data)
          (incoming_set sp h) (heap (snd s)) rc (heap (snd s')) evs
    end.
Proof.
  destruct s as [cl w]. destruct (TLB_getAtom sp h) as [atom|] eqn:Hat.
  - destruct (follow_link_lh_chase h ltype from to cb data atom cl w Hat)
      as (rc & cl' & hp' & evs & E & Hrun).
    exists rc, (cl', {| heap := hp'; trace := trace w ++ evs |}), evs.
    split; [split; [exact E|reflexivity]|exact Hrun].
  - exists false, (cl, w), []. split; [split|auto].
    + now apply follow_link_lh_unresolved.
    + cbn. now rewrite app_nil_r.
Qed.

End RunFacts.

(** ** The properties of the chase *)

Section Properties.

Context {T : Type} (sp : AtomSpace).

(** A property of the result, the final state and the events of a chase
    holds of both entry points once it holds of every enumeration they can
    start and of the immediate return on an unresolved handle. *)
Lemma entry_points_rule (h : Handle) (ltype : AtomType) (from to : Z)
    (cb : Handle -> T -> bool * T)
    (cb_lh : Handle -> Handle -> T -> bool * T) (data : DataPtr)
    (s : State T) (P Q : bool -> State T -> list Event -> Prop) :
  (forall atom rc s' evs,
     TLB_getAtom sp h = Some atom ->
     chase_run sp (search ltype atom from to (Some cb) None data)
       (incoming_set sp h) (heap (snd s)) rc (heap (snd s')) evs ->
     P rc s' evs) ->
  (forall atom rc s' evs,
     TLB_getAtom sp h = Some atom ->
     chase_run sp (search ltype atom from to None (Some cb_lh) data)
       (incoming_set sp h) (heap (snd s)) rc (heap (snd s')) evs ->
     Q rc s' evs) ->
  (TLB_getAtom sp h = None -> P false s [] /\ Q false s []) ->
  (exists rc s' evs,
     runs_to (follow_link sp h ltype from to cb data) s rc s' evs /\
     P rc s' evs) /\
  (exists rc s' evs,
     runs_to (follow_link_lh sp h ltype from to cb_lh data) s rc s' evs /\
     Q rc s' evs).
Proof.
  intros HP HQ Hnone. split.
  - destruct (follow_link_runs sp h ltype from to cb data s)
      as (rc & s' & evs & Hrun & Hcase).
    exists rc, s', evs. split; [exact Hrun|].
    destruct (TLB_getAtom sp h) as [atom|] eqn:Hat.
    + now apply (HP atom).
    + destruct Hcase as (-> & -> & ->). now apply Hnone.
  - destruct (follow_link_lh_runs sp h ltype from to cb_lh data s)
      as (rc & s' & evs & Hrun & Hcase).
    exists rc, s', evs. split; [exact Hrun|].
    destruct (TLB_getAtom sp h) as [atom|] eqn:Hat.
    + now apply (HQ atom).
    + destruct Hcase as (-> & -> & ->). now apply Hnone.
Qed.

(** The same rule for a property that does not depend on which of the two
    visitors is installed. *)
Lemma both_entry_points (h : Handle) (ltype : AtomType) (from to : Z)
    (cb : Handle -> T -> bool * T)
    (cb_lh : Handle -> Handle -> T -> bool * T) (data : DataPtr)
    (s : State T) (P : bool -> State T -> list Event -> Prop) :
  (forall atom ucb ulh rc s' evs,
     TLB_getAtom sp h = Some atom ->
     chase_run sp (search ltype atom from to ucb ulh data)
       (incoming_set sp h) (heap (snd s)) rc (heap (snd s')) evs ->
     P rc s' evs) ->
  (TLB_getAtom sp h = None -> P false s []) ->
  (exists rc s' evs,
     runs_to (follow_link sp h ltype from to cb data) s rc s' evs /\
     P rc s' evs) /\
  (exists rc s' evs,
     runs_to (follow_link_lh sp h ltype from to cb_lh data) s rc s' evs /\
     P rc s' evs).
Proof.
  intros HP Hnone. apply entry_points_rule; eauto.
Qed.

Lemma calls_made_app (v : Visitor) (evs evs' : list Event) (t t1 t' : T) :
  calls_made v evs t t1 -> calls_made v evs' t1 t' ->
  calls_made v (evs ++ evs') t t'.
Proof.
  revert t. induction evs as [|[l|l tg lh r] evs IH]; intros t; cbn.
  - now intros ->.
  - apply IH.
  - intros (m & t2 & Hc & Hm & Hrest) Hnext.
    exists m, t2. split; [exact Hc|]. split; [exact Hm|]. now apply IH.
Qed.

(** The events of an enumeration are the calls made on the object at
    [user_data], by the visitor the chaser object holds. *)
Lemma chase_run_calls (cl : ChaseLink T) (v : Visitor)
    (links : list AtomPtr) (hp hp' : DataPtr -> T) (rc : bool)
    (evs : list Event) :
  (forall tg l lh m,
     visitor_of cl tg l = Some (lh, m) -> call_of v tg lh = Some m) ->
  chase_run sp cl links hp rc hp' evs ->
  calls_made v evs (hp (user_data cl)) (hp' (user_data cl)).
Proof.
  intros Hv.
  assert (Hone : forall link hp hp' rc evs,
    link_outcome sp cl link hp rc hp' evs ->
    calls_made v evs (hp (user_data cl)) (hp' (user_data cl))).
  { intros link hp0 hp1 rc0 evs0 Hlo.
    inversion Hlo as [Hne|Hty Hcap|a lh m rc' t' Hty Hcap Hvis Hm]; subst;
      cbn; try reflexivity.
    exists m, t'. split; [now apply (Hv _ _ _ _ Hvis)|].
    split; [exact Hm|]. unfold heap_store. now rewrite N.eqb_refl. }
  intros Hrun. induction Hrun as [hp|link rest hp hp' evs Hlo
    |link rest hp hp' hp'' rc evs evs' Hlo Hrun IH].
  - reflexivity.
  - exact (Hone _ _ _ _ _ Hlo).
  - eapply calls_made_app; [exact (Hone _ _ _ _ _ Hlo)|exact IH].
Qed.

Lemma chase_calls_target (ltype : AtomType) (atom : AtomPtr) (from to : Z)
    (cb : Handle -> T -> bool * T) (data : DataPtr) (links : list AtomPtr)
    (hp hp' : DataPtr -> T) (rc : bool) (evs : list Event) :
  chase_run sp (search ltype atom from to (Some cb) None data)
    links hp rc hp' evs ->
  calls_made (TargetOnly cb) evs (hp data) (hp' data).
Proof.
  intros Hrun. apply chase_run_calls with (v := TargetOnly cb) in Hrun;
    [exact Hrun|].
  intros tg l lh m Hvis. cbn in Hvis. now injection Hvis as <- <-.
Qed.

Lemma chase_calls_link (ltype : AtomType) (atom : AtomPtr) (from to : Z)
    (cb : Handle -> Handle -> T -> bool * T) (data : DataPtr)
    (links : list AtomPtr) (hp hp' : DataPtr -> T) (rc : bool)
    (evs : list Event) :
  chase_run sp (search ltype atom from to None (Some cb) data)
    links hp rc hp' evs ->
  calls_made (LinkAware cb) evs (hp data) (hp' data).
Proof.
  intros Hrun. apply chase_run_calls with (v := LinkAware cb) in Hrun;
    [exact Hrun|].
  intros tg l lh m Hvis. cbn in Hvis. now injection Hvis as <- <-.
Qed.

Lemma chase_run_well_taken (h : Handle) (ltype : AtomType) (atom : AtomPtr)
    (from to : Z) (ucb : option (Handle -> T -> bool * T))
    (ulh : option (Handle -> Handle -> T -> bool * T)) (data : DataPtr)
    (hp hp' : DataPtr -> T) (rc : bool) (evs : list Event) :
  chase_run sp (search ltype atom from to ucb ulh data)
    (incoming_set sp h) hp rc hp' evs ->
  forall l t lh r, In (Visit l t lh r) evs ->
    well_taken sp h ltype to l t /\
    exists m, visitor_of (search ltype atom from to ucb ulh data) t
                (TLB_getHandle sp l) = Some (lh, m).
Proof.
  intros Hrun l t lh r Hin.
  destruct (chase_run_visit sp _ _ _ _ _ _ Hrun _ _ _ _ Hin)
    as (Hl & Hty & a & m & Hcap & Ht & Hvis).
  cbn [link_type from_atom position_from position_to search] in Hty, Hcap.
  split; [|now exists m].
  split; [assumption|]. split; [now symmetry|].
  exists a. split; [|assumption]. eapply captured_member; eassumption.
Qed.



(** C4: if the start handle does not resolve to a live atom, or the start
    atom's incoming set is empty, both entry points return [false] (they
    are defined: nothing undefined or exceptional happens), no event is
    appended to the trace, so the visitor is never invoked, and the user
    objects are left as they were. *)
Theorem nothing_to_chase (h : Handle) (ltype : AtomType) (from to : Z)
    (cb : Handle -> T -> bool * T)
    (cb_lh : Handle -> Handle -> T -> bool * T) (data : DataPtr)
    (s : State T) :
  TLB_getAtom sp h = None \/ incoming_set sp h = [] ->
  (exists rc s' evs,
     runs_to (follow_link sp h ltype from to cb data) s rc s' evs /\
     rc = false /\ evs = [] /\ heap (snd s') = heap (snd s)) /\
  (exists rc s' evs,
     runs_to (follow_link_lh sp h ltype from to cb_lh data) s rc s' evs /\
     rc = false /\ evs = [] /\ heap (snd s') = heap (snd s)).
Proof.
  intros Hno.
  apply both_entry_points
    with (P := fun rc s' evs =>
                 rc = false /\ evs = [] /\ heap (snd s') = heap (snd s)).
  - intros atom ucb ulh rc s' evs Hat Hrun.
    destruct Hno as [Hno|Hno]; [congruence|].
    rewrite Hno in Hrun. inversion Hrun; subst. auto.
  - auto.
Qed.

(** C5: type filtering is exact.  In a chase for [ltype] the events are
    the calls really made on the user object ([calls_made]), and among them
    no candidate link whose type tag differs from [ltype] produces a
    visitor invocation; of two candidates of different types that both hold
    the start atom at the source position, the one of type [ltype] is
    visited with its member at [to], unless the visitor answered [true] for
    some other candidate, while the other one is not visited. *)
Theorem type_filter_exact (h : Handle) (ltype : AtomType) (from to : Z)
    (cb : Handle -> T -> bool * T)
    (cb_lh : Handle -> Handle -> T -> bool * T) (data : DataPtr)
    (s : State T) :
  (exists rc s' evs,
     runs_to (follow_link sp h ltype from to cb data) s rc s' evs /\
     calls_made (TargetOnly cb) evs
       (heap (snd s) data) (heap (snd s') data) /\
     type_filtered sp h (TLB_getAtom sp h) ltype from to rc evs) /\
  (exists rc s' evs,
     runs_to (follow_link_lh sp h ltype from to cb_lh data) s rc s' evs /\
     calls_made (LinkAware cb_lh) evs
       (heap (snd s) data) (heap (snd s') data) /\
     type_filtered sp h (TLB_getAtom sp h) ltype from to rc evs).
Proof.
  assert (Hgen : forall atom (ucb : option (Handle -> T -> bool * T)) ulh
                         hp hp' rc evs,
    TLB_getAtom sp h = Some atom ->
    chase_run sp (search ltype atom from to ucb ulh data)
      (incoming_set sp h) hp rc hp' evs ->
    type_filtered sp h (TLB_getAtom sp h) ltype from to rc evs).
  { intros atom ucb ulh hp hp' rc evs Hat Hrun.
    assert (Hskip : forall l, getType sp l <> ltype ->
              forall t lh r, ~ In (Visit l t lh r) evs).
    { intros l Hne t lh r Hin.
      destruct (chase_run_well_taken _ _ _ _ _ _ _ _ _ _ _ _ Hrun _ _ _ _ Hin)
        as ((_ & Hty & _) & _).
      contradiction. }
    split; [exact Hskip|].
    intros atom' l1 l2 a Hst Hin1 Hin2 Hs1 Hs2 Hty1 Hty2 Hne Ha.
    split; [|now apply Hskip].
    assert (atom' = atom) by congruence. subst atom'.
    apply (chase_run_reaches sp _ _ _ _ _ _ Hrun l1 a Hin1).
    - cbn. now symmetry.
    - cbn. now apply captured_match. }
  assert (Hnone : TLB_getAtom sp h = None ->
            type_filtered sp h (TLB_getAtom sp h) ltype from to false []).
  { intros Hat. split; [intros ? ? ? ? ? []|].
    intros atom l1 l2 a Hst. congruence. }
  apply entry_points_rule.
  - intros atom rc s' evs Hat Hrun.
    split; [eapply chase_calls_target|eapply Hgen]; eassumption.
  - intros atom rc s' evs Hat Hrun.
    split; [eapply chase_calls_link|eapply Hgen]; eassumption.
  - intros Hat. split; (split; [reflexivity|now apply Hnone]).
Qed.

(** C9: with equal source and target positions neither entry point ever
    invokes the visitor, whatever the store holds: both return [false], the
    events of the chase contain no invocation and the user objects are
    left as they were. *)
Theorem equal_positions_never_match (h : Handle) (ltype : AtomType) (p : Z)
    (cb : Handle -> T -> bool * T)
    (cb_lh : Handle -> Handle -> T -> bool * T) (data : DataPtr)
    (s : State T) :
  (exists rc s' evs,
     runs_to (follow_link sp h ltype p p cb data) s rc s' evs /\
     rc = false /\ reported evs = [] /\ heap (snd s') = heap (snd s)) /\
  (exists rc s' evs,
     runs_to (follow_link_lh sp h ltype p p cb_lh data) s rc s' evs /\
     rc = false /\ reported evs = [] /\ heap (snd s') = heap (snd s)).
Proof.
  apply both_entry_points
    with (P := fun rc s' evs =>
                 rc = false /\ reported evs = [] /\
                 heap (snd s') = heap (snd s)).
  - intros atom ucb ulh rc s' evs _ Hrun.
    apply chase_run_no_capture in Hrun.
    + destruct Hrun as (Hrc & Hhp & Hrep & _). auto.
    + intros l _ _. apply captured_same_position.
  - auto.
Qed.

(** C10: the outcome of a chase does not depend on what the chaser object
    holds when the call is made.  From the same world and with the same
    arguments, runs on any two chaser objects [cl1] and [cl2] (fresh, or
    left over by earlier calls) are both defined, return the same boolean
    and end in the same world: the same user objects and the same trace,
    hence the same sequence of visitor invocations. *)
Theorem chase_ignores_stale_fields (h : Handle) (ltype : AtomType)
    (from to : Z) (cb : Handle -> T -> bool * T)
    (cb_lh : Handle -> Handle -> T -> bool * T) (data : DataPtr)
    (cl1 cl2 : ChaseLink T) (w : World T) :
  (exists rc cl1' cl2' w',
     follow_link sp h ltype from to cb data (cl1, w) = Some (rc, (cl1', w')) /\
     follow_link sp h ltype from to cb data (cl2, w) = Some (rc, (cl2', w'))) /\
  (exists rc cl1' cl2' w',
     follow_link_lh sp h ltype from to cb_lh data (cl1, w)
       = Some (rc, (cl1', w')) /\
     follow_link_lh sp h ltype from to cb_lh data (cl2, w)
       = Some (rc, (cl2', w'))).
Proof.
  destruct (TLB_getAtom sp h) as [atom|] eqn:Hat.
  - split.
    + destruct (follow_link_chase sp h ltype from to cb data atom cl1 w Hat)
        as (rc1 & cl1' & hp1 & evs1 & E1 & Hrun1).
      destruct (follow_link_chase sp h ltype from to cb data atom cl2 w Hat)
        as (rc2 & cl2' & hp2 & evs2 & E2 & Hrun2).
      destruct (chase_run_deterministic sp _ _ _ _ _ _ Hrun1 _ _ _ Hrun2)
        as (-> & -> & ->).
      exists rc2, cl1', cl2', {| heap := hp2; trace := trace w ++ evs2 |}.
      split; assumption.
    + destruct (follow_link_lh_chase sp h ltype from to cb_lh data atom
                  cl1 w Hat) as (rc1 & cl1' & hp1 & evs1 & E1 & Hrun1).
      destruct (follow_link_lh_chase sp h ltype from to cb_lh data atom
                  cl2 w Hat) as (rc2 & cl2' & hp2 & evs2 & E2 & Hrun2).
      destruct (chase_run_deterministic sp _ _ _ _ _ _ Hrun1 _ _ _ Hrun2)
        as (-> & -> & ->).
      exists rc2, cl1', cl2', {| heap := hp2; trace := trace w ++ evs2 |}.
      split; assumption.
  - split; exists false, cl1, cl2, w.
    + split; now apply follow_link_unresolved.
    + split; now apply follow_link_lh_unresolved.
Qed.

Lemma on_local_returns (cl : ChaseLink T) (m : M (State T) bool)
    (w : World T) (rc : bool) (s' : State T) (evs : list Event) :
  runs_to m (cl, w) rc s' evs ->
  returns_to (on_local cl m) w rc (snd s') evs.
Proof.
  intros (E & Htr). split; [|exact Htr]. unfold on_local. now rewrite E.
Qed.

(** A chase over an incoming set that holds the link [L] of the type
    sought, with the start atom at [from] and a member at another position
    [to], reports that member. *)
Lemma chase_run_binary (ltype : AtomType) (atom target L : AtomPtr)
    (from to : Z) (ucb : option (Handle -> T -> bool * T))
    (ulh : option (Handle -> Handle -> T -> bool * T)) (data : DataPtr)
    (links : list AtomPtr) (hp hp' : DataPtr -> T) (rc : bool)
    (evs : list Event) :
  In L links -> getType sp L = ltype ->
  member_at (outgoing_set sp (TLB_getHandle sp L)) from = Some atom ->
  member_at (outgoing_set sp (TLB_getHandle sp L)) to = Some target ->
  to <> from ->
  chase_run sp (search ltype atom from to ucb ulh data) links hp rc hp' evs ->
  exists lh,
    reports L (TLB_getHandle sp target) lh evs /\
    forall m, visitor_of (search ltype atom from to ucb ulh data)
                (TLB_getHandle sp target) (TLB_getHandle sp L) = Some m ->
              lh = fst m.
Proof.
  intros Hin Hty Hfrom Hto Hne Hrun.
  destruct (chase_run_reaches sp _ _ _ _ _ _ Hrun L target Hin)
    as [(lh & r & Hv)|Hhalt].
  - cbn. now symmetry.
  - cbn. now apply captured_match.
  - exists lh. split; [left; now exists r|].
    destruct (chase_run_visit sp _ _ _ _ _ _ Hrun _ _ _ _ Hv)
      as (_ & _ & a & m0 & _ & _ & Hvis).
    intros m Hm. rewrite Hm in Hvis. now injection Hvis as ->.
  - destruct (visitor_of (search ltype atom from to ucb ulh data)
                (TLB_getHandle sp target) (TLB_getHandle sp L))
      as [[lh m]|].
    + exists lh. split; [now right|]. intros m0 Hm. now injection Hm as <-.
    + exists None. split; [now right|]. discriminate.
Qed.

(** Both forms of a chase from the atom at [from] of [L] report the member
    at [to], the link-aware form with the handle of [L]; the events are the
    calls really made on the user object. *)
Lemma chase_reports_member (h : Handle) (ltype : AtomType) (from to : Z)
    (cb : Handle -> T -> bool * T)
    (cb_lh : Handle -> Handle -> T -> bool * T) (data : DataPtr)
    (s : State T) (atom target L : AtomPtr) :
  TLB_getAtom sp h = Some atom -> In L (incoming_set sp h) ->
  getType sp L = ltype ->
  member_at (outgoing_set sp (TLB_getHandle sp L)) from = Some atom ->
  member_at (outgoing_set sp (TLB_getHandle sp L)) to = Some target ->
  to <> from ->
  (exists rc s' evs,
     runs_to (follow_link sp h ltype from to cb data) s rc s' evs /\
     calls_made (TargetOnly cb) evs
       (heap (snd s) data) (heap (snd s') data) /\
     reports L (TLB_getHandle sp target) None evs) /\
  (exists rc s' evs,
     runs_to (follow_link_lh sp h ltype from to cb_lh data) s rc s' evs /\
     calls_made (LinkAware cb_lh) evs
       (heap (snd s) data) (heap (snd s') data) /\
     reports L (TLB_getHandle sp target) (Some (TLB_getHandle sp L)) evs).
Proof.
  intros Hat Hin Hty Hfrom Hto Hne.
  apply entry_points_rule.
  - intros atom' rc s' evs Hat' Hrun.
    assert (atom' = atom) by congruence. subst atom'.
    split; [eapply chase_calls_target; eassumption|].
    destruct (chase_run_binary _ _ _ _ _ _ _ _ _ _ _ _ _ _
                Hin Hty Hfrom Hto Hne Hrun) as (lh & Hrep & Hlh).
    now rewrite (Hlh _ eq_refl) in Hrep.
  - intros atom' rc s' evs Hat' Hrun.
    assert (atom' = atom) by congruence. subst atom'.
    split; [eapply chase_calls_link; eassumption|].
    destruct (chase_run_binary _ _ _ _ _ _ _ _ _ _ _ _ _ _
                Hin Hty Hfrom Hto Hne Hrun) as (lh & Hrep & Hlh).
    now rewrite (Hlh _ eq_refl) in Hrep.
  - congruence.
Qed.

(** C6: for a binary link [L = (A, B)] of type [ltype], the forward wrapper
    started at [A] calls the visitor with the handle of [B] and the
    backward wrapper started at [B] calls it with the handle of [A], in
    the target-only form and, with the handle of [L] as second argument,
    in the link-aware form.  The events of each run are the calls really
    made on the user object at [data] ([calls_made]: each is an
    application of the visitor to the arguments shown, and its answer),
    and among them is the invocation for [L], unless the visitor answered
    [true] for another candidate link ([reports]).  And the four wrappers
    are [follow_link] and [follow_link_lh] at positions (0, 1) and (1, 0)
    on a local chaser object. *)
Theorem binary_link_symmetry (cl : ChaseLink T) (hA hB : Handle)
    (A B L : AtomPtr) (ltype : AtomType) (cb : Handle -> T -> bool * T)
    (cb_lh : Handle -> Handle -> T -> bool * T) (data : DataPtr)
    (w : World T) :
  TLB_getAtom sp hA = Some A -> TLB_getAtom sp hB = Some B ->
  In L (incoming_set sp hA) -> In L (incoming_set sp hB) ->
  getType sp L = ltype ->
  outgoing_set sp (TLB_getHandle sp L) = [A; B] ->
  (exists rc w' evs,
     returns_to (follow_binary_link sp cl hA ltype cb data) w rc w' evs /\
     calls_made (TargetOnly cb) evs (heap w data) (heap w' data) /\
     reports L (TLB_getHandle sp B) None evs) /\
  (exists rc w' evs,
     returns_to (backtrack_binary_link sp cl hB ltype cb data) w rc w' evs /\
     calls_made (TargetOnly cb) evs (heap w data) (heap w' data) /\
     reports L (TLB_getHandle sp A) None evs) /\
  (exists rc w' evs,
     returns_to (follow_binary_link_lh sp cl hA ltype cb_lh data) w rc w' evs /\
     calls_made (LinkAware cb_lh) evs (heap w data) (heap w' data) /\
     reports L (TLB_getHandle sp B) (Some (TLB_getHandle sp L)) evs) /\
  (exists rc w' evs,
     returns_to (backtrack_binary_link_lh sp cl hB ltype cb_lh data)
       w rc w' evs /\
     calls_made (LinkAware cb_lh) evs (heap w data) (heap w' data) /\
     reports L (TLB_getHandle sp A) (Some (TLB_getHandle sp L)) evs) /\
  follow_binary_link sp cl hA ltype cb data
    = on_local cl (follow_link sp hA ltype 0 1 cb data) /\
  backtrack_binary_link sp cl hB ltype cb data
    = on_local cl (follow_link sp hB ltype 1 0 cb data) /\
  follow_binary_link_lh sp cl hA ltype cb_lh data
    = on_local cl (follow_link_lh sp hA ltype 0 1 cb_lh data) /\
  backtrack_binary_link_lh sp cl hB ltype cb_lh data
    = on_local cl (follow_link_lh sp hB ltype 1 0 cb_lh data).
Proof.
  intros HA HB HinA HinB Hty Hout.
  assert (H0 : member_at (outgoing_set sp (TLB_getHandle sp L)) 0 = Some A)
    by now rewrite Hout.
  assert (H1 : member_at (outgoing_set sp (TLB_getHandle sp L)) 1 = Some B)
    by now rewrite Hout.
  destruct (chase_reports_member hA ltype 0 1 cb cb_lh data (cl, w) A B L
              HA HinA Hty H0 H1 ltac:(lia))
    as ((rc1 & s1 & evs1 & Hrun1 & Hc1 & Hrep1)
        & (rc2 & s2 & evs2 & Hrun2 & Hc2 & Hrep2)).
  destruct (chase_reports_member hB ltype 1 0 cb cb_lh data (cl, w) B A L
              HB HinB Hty H1 H0 ltac:(lia))
    as ((rc3 & s3 & evs3 & Hrun3 & Hc3 & Hrep3)
        & (rc4 & s4 & evs4 & Hrun4 & Hc4 & Hrep4)).
  apply on_local_returns in Hrun1, Hrun2, Hrun3, Hrun4.
  repeat apply conj; try reflexivity.
  - now exists rc1, (snd s1), evs1.
  - now exists rc3, (snd s3), evs3.
  - now exists rc2, (snd s2), evs2.
  - now exists rc4, (snd s4), evs4.
Qed.

(** *** Positions out of range, and positions held by another atom *)

Lemma chase_run_positions (h : Handle) (ltype : AtomType) (atom : AtomPtr)
    (from to : Z) (ucb : option (Handle -> T -> bool * T))
    (ulh : option (Handle -> Handle -> T -> bool * T)) (data : DataPtr)
    (hp hp' : DataPtr -> T) (rc : bool) (evs : list Event) :
  TLB_getAtom sp h = Some atom ->
  chase_run sp (search ltype atom from to ucb ulh data)
    (incoming_set sp h) hp rc hp' evs ->
  positions_respected sp h from to evs.
Proof.
  intros Hat Hrun l t lh r Hin.
  destruct (chase_run_visit sp _ _ _ _ _ _ Hrun _ _ _ _ Hin)
    as (_ & _ & a & m & Hcap & _ & _).
  cbn [from_atom position_from position_to search] in Hcap.
  split.
  - eapply member_at_range, captured_member. eassumption.
  - intros x Hx. rewrite Hat.
    destruct (Pos.eq_dec atom x) as [->|E]; [reflexivity|].
    rewrite (captured_mismatch (Some atom) _ _ _ _ Hx) in Hcap by congruence.
    discriminate.
Qed.

(** A target position outside a link's outgoing set never matches, and
    neither does a link that holds another atom at the source position. *)
Lemma positions_filter (h : Handle) (ltype : AtomType) (from to : Z)
    (cb : Handle -> T -> bool * T)
    (cb_lh : Handle -> Handle -> T -> bool * T) (data : DataPtr)
    (s : State T) :
  (exists rc s' evs,
     runs_to (follow_link sp h ltype from to cb data) s rc s' evs /\
     positions_respected sp h from to evs) /\
  (exists rc s' evs,
     runs_to (follow_link_lh sp h ltype from to cb_lh data) s rc s' evs /\
     positions_respected sp h from to evs).
Proof.
  apply both_entry_points
    with (P := fun _ _ evs => positions_respected sp h from to evs).
  - intros atom ucb ulh rc s' evs Hat Hrun.
    eapply chase_run_positions; eassumption.
  - intros _ ? ? ? ? [].
Qed.

(** A candidate that holds another atom at the source position makes
    [find_link_type] return [false], so the enumeration goes on. *)
Lemma find_link_type_mismatch_continues (link x : AtomPtr)
    (cl : ChaseLink T) (w : World T) :
  visitor_of cl 0%N 0%N <> None ->
  member_at (outgoing_set sp (TLB_getHandle sp link)) (position_from cl)
    = Some x ->
  from_atom cl <> Some x ->
  exists cl',
    find_link_type sp link (cl, w) =
    Some (false, (cl', {| heap := heap w;
                          trace := trace w ++ [Examine link] |})).
Proof.
  intros Hset Hx Hne.
  destruct (find_link_type_outcome sp link cl w Hset)
    as (rc & cl' & hp' & evs & E & _ & Hlo).
  exists cl'. rewrite E.
  inversion Hlo as [Hty|Hty Hcap|a lh m rc' t' Hty Hcap Hvis Hm]; subst;
    try reflexivity.
  rewrite (captured_mismatch _ _ _ _ _ Hx Hne) in Hcap. discriminate.
Qed.

End Properties.

(** ** The two forms of the chase, side by side *)

Section LinkAwareForm.

(** The two visitors may belong to different classes of user object. *)
Context {T1 T2 : Type} (sp : AtomSpace).

(** The link-aware enumeration follows the target-only one step for step
    when the two visitors are alike. *)
Lemma chase_run_alike (R : T1 -> T2 -> Prop) (ltype : AtomType)
    (atom : AtomPtr) (from to : Z) (cb : Handle -> T1 -> bool * T1)
    (cb_lh : Handle -> Handle -> T2 -> bool * T2) (d1 d2 : DataPtr)
    (links : list AtomPtr) (hp1 hp1' : DataPtr -> T1) (rc : bool)
    (evs : list Event) :
  alike R cb cb_lh ->
  chase_run sp (search ltype atom from to (Some cb) None d1)
    links hp1 rc hp1' evs ->
  forall hp2 : DataPtr -> T2,
    R (hp1 d1) (hp2 d2) ->
    exists hp2',
      chase_run sp (search ltype atom from to None (Some cb_lh) d2)
        links hp2 rc hp2' (map (with_link_handle sp) evs) /\
      R (hp1' d1) (hp2' d2).
Proof.
  intros Halike.
  assert (Hone : forall link hp1 hp1' rc evs (hp2 : DataPtr -> T2),
    link_outcome sp (search ltype atom from to (Some cb) None d1)
      link hp1 rc hp1' evs ->
    R (hp1 d1) (hp2 d2) ->
    exists hp2',
      link_outcome sp (search ltype atom from to None (Some cb_lh) d2)
        link hp2 rc hp2' (map (with_link_handle sp) evs) /\
      R (hp1' d1) (hp2' d2)).
  { intros link hp1a hp1b rc0 evs0 hp2 Hlo HR.
    inversion Hlo as [Hne|Hty Hcap|a lh m rc' t' Hty Hcap Hvis Hm]; subst.
    - exists hp2. split; [now apply lo_other_type|exact HR].
    - exists hp2. split; [now apply lo_no_target|exact HR].
    - cbn in Hvis. injection Hvis as <- <-.
      cbn [user_data search] in Hm |- *.
      destruct (Halike (TLB_getHandle sp a) (TLB_getHandle sp link)
                  _ _ HR) as (Hans & Hnext).
      destruct (cb_lh (TLB_getHandle sp a) (TLB_getHandle sp link) (hp2 d2))
        as [rc2 t2'] eqn:Hm2.
      unfold search in Hm. cbn [user_data] in Hm.
      rewrite Hm in Hans, Hnext. cbn [fst snd] in Hans, Hnext. subst rc2.
      exists (heap_store hp2 d2 t2'). split.
      + cbn [map with_link_handle].
        apply (lo_visit sp (search ltype atom from to None (Some cb_lh) d2)
                 link hp2 a (Some (TLB_getHandle sp link))
                 (cb_lh (TLB_getHandle sp a) (TLB_getHandle sp link)));
          try assumption; reflexivity.
      + unfold heap_store. now rewrite !N.eqb_refl. }
  intros Hrun.
  remember (search ltype atom from to (Some cb) None d1) as cl eqn:Hcl.
  induction Hrun as [hp|link rest hp hp' evs Hlo
    |link rest hp hp' hp'' rc evs evs' Hlo Hrun IH]; subst cl;
    intros hp2 HR.
  - exists hp2. split; [constructor|exact HR].
  - destruct (Hone _ _ _ _ _ hp2 Hlo HR) as (hp2' & Hlo2 & HR').
    exists hp2'. split; [now apply chase_stop|exact HR'].
  - destruct (Hone _ _ _ _ _ hp2 Hlo HR) as (hp2' & Hlo2 & HR').
    destruct (IH hp2' HR') as (hp2'' & Hrun2 & HR'').
    exists hp2''. split; [|exact HR''].
    rewrite map_app. eapply chase_next; eassumption.
Qed.

(** C7: for the same start handle, link type and positions on the same
    store, and visitors that are alike up to the link handle ([alike]: the
    same answers on related user objects; the link-aware visitor may use
    its second argument as it likes), [follow_link_lh] returns what
    [follow_link] returns and leaves user objects related as before.  Its
    events are those of [follow_link], one for one and in the same order,
    each showing the same target and, as second argument, the handle of
    the candidate link that produced it, whose member at [to] the target
    is.  In both runs the events are the calls really made on the user
    objects ([calls_made]), so the link-aware visitor is applied to that
    target and that link handle. *)
Theorem link_aware_consistent (R : T1 -> T2 -> Prop) (h : Handle)
    (ltype : AtomType) (from to : Z) (cb : Handle -> T1 -> bool * T1)
    (cb_lh : Handle -> Handle -> T2 -> bool * T2) (d1 d2 : DataPtr)
    (s1 : State T1) (s2 : State T2) :
  alike R cb cb_lh ->
  R (heap (snd s1) d1) (heap (snd s2) d2) ->
  exists rc s1' s2' evs,
    runs_to (follow_link sp h ltype from to cb d1) s1 rc s1' evs /\
    runs_to (follow_link_lh sp h ltype from to cb_lh d2) s2 rc s2'
      (map (with_link_handle sp) evs) /\
    calls_made (TargetOnly cb) evs (heap (snd s1) d1) (heap (snd s1') d1) /\
    calls_made (LinkAware cb_lh) (map (with_link_handle sp) evs)
      (heap (snd s2) d2) (heap (snd s2') d2) /\
    R (heap (snd s1') d1) (heap (snd s2') d2) /\
    forall l t lh r, In (Visit l t lh r) evs ->
      lh = None /\ well_taken sp h ltype to l t.
Proof.
  intros Halike HR.
  destruct (follow_link_runs sp h ltype from to cb d1 s1)
    as (rc & s1' & evs & Hrun1 & Hcase1).
  destruct (follow_link_lh_runs sp h ltype from to cb_lh d2 s2)
    as (rc2 & s2' & evs2 & Hrun2 & Hcase2).
  destruct (TLB_getAtom sp h) as [atom|].
  - destruct (chase_run_alike R _ _ _ _ cb cb_lh d1 d2 _ _ _ _ _
                Halike Hcase1 _ HR) as (hp2' & Hlh & HR').
    destruct (chase_run_deterministic sp _ _ _ _ _ _ Hlh _ _ _ Hcase2)
      as (-> & Hhp & <-).
    exists rc2, s1', s2', evs.
    split; [exact Hrun1|]. split; [exact Hrun2|].
    split; [eapply chase_calls_target; eassumption|].
    split; [eapply chase_calls_link; eassumption|].
    split; [now rewrite <- Hhp|].
    intros l t lh r Hin.
    destruct (chase_run_well_taken sp _ _ _ _ _ _ _ _ _ _ _ _ Hcase1
                _ _ _ _ Hin)
      as (Hwt & m & Hvis).
    split; [|exact Hwt]. cbn in Hvis. congruence.
  - destruct Hcase1 as (-> & -> & ->). destruct Hcase2 as (-> & -> & ->).
    exists false, s1, s2, [].
    split; [exact Hrun1|]. split; [exact Hrun2|].
    split; [reflexivity|]. split; [reflexivity|].
    split; [exact HR|intros ? ? ? ? []].
Qed.

End LinkAwareForm.

(** ** The chase as a fold over the incoming set *)

Section FoldFacts.

Context {T : Type} (sp : AtomSpace).

Lemma visits_app (evs evs' : list Event) :
  visits (evs ++ evs') = visits evs ++ visits evs'.
Proof.
  induction evs as [|[l|l t lh r] evs IH]; cbn; [reflexivity|assumption|].
  now rewrite IH.
Qed.

(** For a candidate of the type sought, [match_target] is what the walk
    captures. *)
Lemma captured_match_target (cl : ChaseLink T) (start l : AtomPtr) :
  from_atom cl = Some start ->
  link_type cl = getType sp l ->
  captured (from_atom cl) (position_from cl) (position_to cl)
    (outgoing_set sp (TLB_getHandle sp l))
  = match_target sp start (link_type cl) (position_from cl)
      (position_to cl) l.
Proof.
  intros Hst Hty. unfold match_target.
  rewrite <- Hty, N.eqb_refl, Hst, captured_cases. reflexivity.
Qed.

Lemma match_target_other_type (start l : AtomPtr) (ltype : AtomType)
    (from to : Z) :
  ltype <> getType sp l -> match_target sp start ltype from to l = None.
Proof.
  intros Hne. unfold match_target.
  destruct (N.eqb_spec ltype (getType sp l)); [contradiction|reflexivity].
Qed.

(** One examination, told by [match_target]. *)
Lemma link_outcome_target (cl : ChaseLink T) (start link : AtomPtr)
    (hp hp' : DataPtr -> T) (rc : bool) (evs : list Event) :
  from_atom cl = Some start ->
  link_outcome sp cl link hp rc hp' evs ->
  match match_target sp start (link_type cl) (position_from cl)
          (position_to cl) link with
  | None => rc = false /\ hp' = hp /\ evs = [Examine link]
  | Some a =>
      exists lh m t',
        visitor_of cl (TLB_getHandle sp a) (TLB_getHandle sp link)
          = Some (lh, m) /\
        m (hp (user_data cl)) = (rc, t') /\
        hp' = heap_store hp (user_data cl) t' /\
        evs = [Examine link; Visit link (TLB_getHandle sp a) lh rc]
  end.
Proof.
  intros Hst Hlo.
  inversion Hlo as [Hne|Hty Hcap|a lh m rc' t' Hty Hcap Hvis Hm]; subst.
  - rewrite match_target_other_type by assumption. auto.
  - rewrite <- (captured_match_target cl start link Hst Hty), Hcap. auto.
  - rewrite <- (captured_match_target cl start link Hst Hty), Hcap.
    exists lh, m, t'. auto.
Qed.

Lemma heap_store_same (hp : DataPtr -> T) (p : DataPtr) (t : T) :
  heap_store hp p t p = t.
Proof. unfold heap_store. now rewrite N.eqb_refl. Qed.

Lemma heap_store_other (hp : DataPtr -> T) (p q : DataPtr) (t : T) :
  q <> p -> heap_store hp p t q = hp q.
Proof.
  intros Hne. unfold heap_store.
  destruct (N.eqb_spec q p); [contradiction|reflexivity].
Qed.

(** An enumeration computes [chase_fold] on the object at [user_data] and
    leaves every other user object alone. *)
Lemma chase_run_fold (cl : ChaseLink T) (start : AtomPtr)
    (visit : AtomPtr -> AtomPtr -> T -> bool * T) (links : list AtomPtr)
    (hp hp' : DataPtr -> T) (rc : bool) (evs : list Event) :
  from_atom cl = Some start ->
  (forall l a lh m,
     visitor_of cl (TLB_getHandle sp a) (TLB_getHandle sp l) = Some (lh, m) ->
     m = visit l a) ->
  chase_run sp cl links hp rc hp' evs ->
  chase_fold visit
    (match_target sp start (link_type cl) (position_from cl) (position_to cl))
    links (hp (user_data cl)) = (rc, hp' (user_data cl)) /\
  forall q, q <> user_data cl -> hp' q = hp q.
Proof.
  intros Hst Hvisit Hrun.
  induction Hrun as [hp|link rest hp hp' evs Hlo
    |link rest hp hp' hp'' rc evs evs' Hlo Hrun IH]; cbn [chase_fold].
  - auto.
  - apply (link_outcome_target cl start) in Hlo; [|exact Hst].
    destruct (match_target sp start (link_type cl) (position_from cl)
                (position_to cl) link) as [a|].
    + destruct Hlo as (lh & m & t' & Hvis & Hm & -> & _).
      rewrite <- (Hvisit _ _ _ _ Hvis), Hm, heap_store_same.
      split; [reflexivity|]. intros q Hq. now apply heap_store_other.
    + destruct Hlo as (Hf & _). discriminate.
  - apply (link_outcome_target cl start) in Hlo; [|exact Hst].
    destruct IH as (IHf & IHq).
    destruct (match_target sp start (link_type cl) (position_from cl)
                (position_to cl) link) as [a|].
    + destruct Hlo as (lh & m & t' & Hvis & Hm & -> & _).
      rewrite <- (Hvisit _ _ _ _ Hvis), Hm.
      rewrite heap_store_same in IHf. split; [exact IHf|].
      intros q Hq. rewrite IHq by assumption. now apply heap_store_other.
    + destruct Hlo as (_ & -> & _). auto.
Qed.

(** The visitor invocations of an enumeration are the matching candidates,
    in order, up to where it stopped; all of them when it returns
    [false]. *)
Lemma chase_run_matches (cl : ChaseLink T) (start : AtomPtr)
    (links : list AtomPtr) (hp hp' : DataPtr -> T) (rc : bool)
    (evs : list Event) :
  from_atom cl = Some start ->
  chase_run sp cl links hp rc hp' evs ->
  exists rest,
    matches sp (match_target sp start (link_type cl) (position_from cl)
                  (position_to cl)) links = visits evs ++ rest /\
    (rc = false -> rest = []).
Proof.
  intros Hst Hrun.
  induction Hrun as [hp|link rest hp hp' evs Hlo
    |link rest hp hp' hp'' rc evs evs' Hlo Hrun IH]; cbn [matches].
  - exists []. auto.
  - apply (link_outcome_target cl start) in Hlo; [|exact Hst].
    destruct (match_target sp start (link_type cl) (position_from cl)
                (position_to cl) link) as [a|].
    + destruct Hlo as (lh & m & t' & _ & _ & _ & ->). cbn.
      eexists. split; [reflexivity|discriminate].
    + destruct Hlo as (Hf & _). discriminate.
  - apply (link_outcome_target cl start) in Hlo; [|exact Hst].
    destruct IH as (tail & IHm & IHr). rewrite visits_app.
    destruct (match_target sp start (link_type cl) (position_from cl)
                (position_to cl) link) as [a|].
    + destruct Hlo as (lh & m & t' & _ & _ & _ & ->). cbn.
      exists tail. rewrite IHm. auto.
    + destruct Hlo as (_ & _ & ->). cbn. exists tail. auto.
Qed.

(** With a visitor that always answers [true], an enumeration visits the
    first matching candidate and nothing else. *)
Lemma chase_run_first_match (cl : ChaseLink T) (start : AtomPtr)
    (links : list AtomPtr) (hp hp' : DataPtr -> T) (rc : bool)
    (evs : list Event) :
  from_atom cl = Some start ->
  (forall t l lh m x, visitor_of cl t l = Some (lh, m) -> fst (m x) = true) ->
  chase_run sp cl links hp rc hp' evs ->
  visits evs
    = firstn 1 (matches sp (match_target sp start (link_type cl)
                              (position_from cl) (position_to cl)) links) /\
  (rc = true <->
   matches sp (match_target sp start (link_type cl) (position_from cl)
                 (position_to cl)) links <> []).
Proof.
  intros Hst Htrue Hrun.
  induction Hrun as [hp|link rest hp hp' evs Hlo
    |link rest hp hp' hp'' rc evs evs' Hlo Hrun IH]; cbn [matches].
  - split; [reflexivity|]. split; [discriminate|congruence].
  - apply (link_outcome_target cl start) in Hlo; [|exact Hst].
    destruct (match_target sp start (link_type cl) (position_from cl)
                (position_to cl) link) as [a|].
    + destruct Hlo as (lh & m & t' & _ & _ & _ & ->).
      split; [reflexivity|]. split; [discriminate|reflexivity].
    + destruct Hlo as (Hf & _). discriminate.
  - apply (link_outcome_target cl start) in Hlo; [|exact Hst].
    rewrite visits_app.
    destruct (match_target sp start (link_type cl) (position_from cl)
                (position_to cl) link) as [a|].
    + destruct Hlo as (lh & m & t' & Hvis & Hm & _ & _).
      pose proof (Htrue _ _ _ _ (hp (user_data cl)) Hvis) as Ht.
      rewrite Hm in Ht. discriminate.
    + destruct Hlo as (_ & _ & ->). exact IH.
Qed.

(** A candidate of the type sought whose walk captures [target] is
    reported, with the link argument the installed visitor takes. *)
Lemma chase_run_reports_captured (cl : ChaseLink T) (target L : AtomPtr)
    (links : list AtomPtr) (hp hp' : DataPtr -> T) (rc : bool)
    (evs : list Event) :
  In L links -> link_type cl = getType sp L ->
  captured (from_atom cl) (position_from cl) (position_to cl)
    (outgoing_set sp (TLB_getHandle sp L)) = Some target ->
  chase_run sp cl links hp rc hp' evs ->
  forall lh m,
    visitor_of cl (TLB_getHandle sp target) (TLB_getHandle sp L)
      = Some (lh, m) ->
    reports L (TLB_getHandle sp target) lh evs.
Proof.
  intros Hin Hty Hcap Hrun lh m Hvis.
  destruct (chase_run_reaches sp _ _ _ _ _ _ Hrun L target Hin Hty Hcap)
    as [(lh' & r & Hv)|Hhalt]; [|now right].
  left. exists r.
  destruct (chase_run_visit sp _ _ _ _ _ _ Hrun _ _ _ _ Hv)
    as (_ & _ & a & m0 & _ & _ & Hvis').
  rewrite Hvis in Hvis'. now injection Hvis' as <- _.
Qed.

End FoldFacts.

(** ** Further properties of the entry points and the wrappers *)

Section MoreProperties.

Context {T : Type} (sp : AtomSpace).

(** [follow_link] is a fold over the incoming set.  The call is defined; on
    a handle that resolves to [atom], its result and the final state of the
    user object at [data] are those of [chase_fold] with the visitor applied
    to the handle of each target, the targets being those of
    [match_target]; on a handle that does not resolve it returns [false]
    and the object is unchanged.  No other user object changes. *)
Theorem follow_link_refines_fold (h : Handle) (ltype : AtomType)
    (from to : Z) (cb : Handle -> T -> bool * T) (data : DataPtr)
    (cl : ChaseLink T) (w : World T) :
  exists rc cl' w',
    follow_link sp h ltype from to cb data (cl, w) = Some (rc, (cl', w')) /\
    (forall q, q <> data -> heap w' q = heap w q) /\
    (rc, heap w' data) =
    match TLB_getAtom sp h with
    | Some atom =>
        chase_fold (fun _ a => cb (TLB_getHandle sp a))
          (match_target sp atom ltype from to) (incoming_set sp h)
          (heap w data)
    | None => (false, heap w data)
    end.
Proof.
  destruct (follow_link_runs sp h ltype from to cb data (cl, w))
    as (rc & [cl' w'] & evs & (E & _) & Hcase).
  exists rc, cl', w'. split; [exact E|].
  destruct (TLB_getAtom sp h) as [atom|].
  - apply (chase_run_fold sp _ atom (fun _ a => cb (TLB_getHandle sp a)))
      in Hcase.
    + destruct Hcase as (Hf & Hq). split; [exact Hq|symmetry; exact Hf].
    + reflexivity.
    + intros l a lh m Hvis. cbn in Hvis. now injection Hvis as _ <-.
  - destruct Hcase as (-> & Hs & _). injection Hs as -> ->. auto.
Qed.

(** [follow_link_lh] is the same fold, the visitor being applied to the
    handle of each target and the handle of the link it was taken from. *)
Theorem follow_link_lh_refines_fold (h : Handle) (ltype : AtomType)
    (from to : Z) (cb : Handle -> Handle -> T -> bool * T) (data : DataPtr)
    (cl : ChaseLink T) (w : World T) :
  exists rc cl' w',
    follow_link_lh sp h ltype from to cb data (cl, w)
      = Some (rc, (cl', w')) /\
    (forall q, q <> data -> heap w' q = heap w q) /\
    (rc, heap w' data) =
    match TLB_getAtom sp h with
    | Some atom =>
        chase_fold (fun l a => cb (TLB_getHandle sp a) (TLB_getHandle sp l))
          (match_target sp atom ltype from to) (incoming_set sp h)
          (heap w data)
    | None => (false, heap w data)
    end.
Proof.
  destruct (follow_link_lh_runs sp h ltype from to cb data (cl, w))
    as (rc & [cl' w'] & evs & (E & _) & Hcase).
  exists rc, cl', w'. split; [exact E|].
  destruct (TLB_getAtom sp h) as [atom|].
  - apply (chase_run_fold sp _ atom
             (fun l a => cb (TLB_getHandle sp a) (TLB_getHandle sp l)))
      in Hcase.
    + destruct Hcase as (Hf & Hq). split; [exact Hq|symmetry; exact Hf].
    + reflexivity.
    + intros l a lh m Hvis. cbn in Hvis. now injection Hvis as _ <-.
  - destruct Hcase as (-> & Hs & _). injection Hs as -> ->. auto.
Qed.

(** The visitor invocations of a chase, with the candidate link each comes
    from, are the matching candidates of the incoming set in its order, up
    to where the chase stopped: a prefix of [matches], and the whole of it
    when the chase returns [false].  They are the calls really made on the
    user object at [data] ([calls_made]): each is an application of the
    visitor to the target shown (and the link handle, in the link-aware
    form) on the object as the previous calls left it.  On a handle that
    does not resolve there is none. *)
Theorem visits_follow_matches (h : Handle) (ltype : AtomType) (from to : Z)
    (cb : Handle -> T -> bool * T)
    (cb_lh : Handle -> Handle -> T -> bool * T) (data : DataPtr)
    (s : State T) :
  (exists rc s' evs,
     runs_to (follow_link sp h ltype from to cb data) s rc s' evs /\
     calls_made (TargetOnly cb) evs
       (heap (snd s) data) (heap (snd s') data) /\
     match TLB_getAtom sp h with
     | Some atom =>
         exists rest,
           matches sp (match_target sp atom ltype from to) (incoming_set sp h)
             = visits evs ++ rest /\
           (rc = false -> rest = [])
     | None => visits evs = []
     end) /\
  (exists rc s' evs,
     runs_to (follow_link_lh sp h ltype from to cb_lh data) s rc s' evs /\
     calls_made (LinkAware cb_lh) evs
       (heap (snd s) data) (heap (snd s') data) /\
     match TLB_getAtom sp h with
     | Some atom =>
         exists rest,
           matches sp (match_target sp atom ltype from to) (incoming_set sp h)
             = visits evs ++ rest /\
           (rc = false -> rest = [])
     | None => visits evs = []
     end).
Proof.
  apply entry_points_rule.
  - intros atom rc s' evs Hat Hrun. rewrite Hat.
    split; [eapply chase_calls_target; eassumption|].
    now apply (chase_run_matches sp _ atom) in Hrun.
  - intros atom rc s' evs Hat Hrun. rewrite Hat.
    split; [eapply chase_calls_link; eassumption|].
    now apply (chase_run_matches sp _ atom) in Hrun.
  - intros Hat. rewrite Hat. repeat split.
Qed.

(** With visitors that always answer [true], a chase on a handle that
    resolves invokes the visitor exactly once, on the first matching
    candidate of the incoming set, and returns [true], or finds no match,
    invokes nothing and returns [false]. *)
Theorem stopping_visitor_sees_first_match (h : Handle) (ltype : AtomType)
    (from to : Z) (cb : Handle -> T -> bool * T)
    (cb_lh : Handle -> Handle -> T -> bool * T) (data : DataPtr)
    (s : State T) (atom : AtomPtr) :
  TLB_getAtom sp h = Some atom ->
  (forall t x, fst (cb t x) = true) ->
  (forall t l x, fst (cb_lh t l x) = true) ->
  (exists rc s' evs,
     runs_to (follow_link sp h ltype from to cb data) s rc s' evs /\
     visits evs = firstn 1 (matches sp (match_target sp atom ltype from to)
                              (incoming_set sp h)) /\
     (rc = true <->
      matches sp (match_target sp atom ltype from to) (incoming_set sp h)
        <> [])) /\
  (exists rc s' evs,
     runs_to (follow_link_lh sp h ltype from to cb_lh data) s rc s' evs /\
     visits evs = firstn 1 (matches sp (match_target sp atom ltype from to)
                              (incoming_set sp h)) /\
     (rc = true <->
      matches sp (match_target sp atom ltype from to) (incoming_set sp h)
        <> [])).
Proof.
  intros Hat Hcb Hlh. apply entry_points_rule.
  - intros atom' rc s' evs Hat' Hrun.
    assert (atom' = atom) by congruence. subst atom'.
    apply (chase_run_first_match sp _ atom) in Hrun; [exact Hrun|reflexivity|].
    intros t l lh m x Hvis. cbn in Hvis. injection Hvis as _ <-. apply Hcb.
  - intros atom' rc s' evs Hat' Hrun.
    assert (atom' = atom) by congruence. subst atom'.
    apply (chase_run_first_match sp _ atom) in Hrun; [exact Hrun|reflexivity|].
    intros t l lh m x Hvis. cbn in Hvis. injection Hvis as _ <-. apply Hlh.
  - congruence.
Qed.

(** A candidate link of the type sought that has no member at the source
    position (the position is negative, or at or past the arity) and has a
    member at the target position is reported with that member, whatever
    atom the chase starts from: the identity test of the source position is
    never reached for it.  The events are the calls really made on the
    user object at [data] ([calls_made]). *)
Theorem absent_source_position_matches (h : Handle) (ltype : AtomType)
    (from to : Z) (cb : Handle -> T -> bool * T)
    (cb_lh : Handle -> Handle -> T -> bool * T) (data : DataPtr)
    (s : State T) (atom target L : AtomPtr) :
  TLB_getAtom sp h = Some atom -> In L (incoming_set sp h) ->
  getType sp L = ltype ->
  member_at (outgoing_set sp (TLB_getHandle sp L)) from = None ->
  member_at (outgoing_set sp (TLB_getHandle sp L)) to = Some target ->
  (exists rc s' evs,
     runs_to (follow_link sp h ltype from to cb data) s rc s' evs /\
     calls_made (TargetOnly cb) evs
       (heap (snd s) data) (heap (snd s') data) /\
     reports L (TLB_getHandle sp target) None evs) /\
  (exists rc s' evs,
     runs_to (follow_link_lh sp h ltype from to cb_lh data) s rc s' evs /\
     calls_made (LinkAware cb_lh) evs
       (heap (snd s) data) (heap (snd s') data) /\
     reports L (TLB_getHandle sp target) (Some (TLB_getHandle sp L)) evs).
Proof.
  intros Hat Hin Hty Hfrom Hto.
  apply entry_points_rule.
  - intros atom' rc s' evs _ Hrun.
    split; [eapply chase_calls_target; eassumption|].
    eapply (chase_run_reports_captured sp _ target L); try eassumption.
    + cbn. now symmetry.
    + cbn. now rewrite captured_no_source.
    + reflexivity.
  - intros atom' rc s' evs _ Hrun.
    split; [eapply chase_calls_link; eassumption|].
    eapply (chase_run_reports_captured sp _ target L); try eassumption.
    + cbn. now symmetry.
    + cbn. now rewrite captured_no_source.
    + reflexivity.
  - congruence.
Qed.

(** A chase changes no field of the chaser object other than the scratch
    fields [cnt] and [to_atom]: after a call on a handle that resolves, the
    object holds the arguments of the call, the visitor of the other form
    being null; after a call on a handle that does not resolve, the object
    is as it was before the call. *)
Theorem chaser_keeps_search_parameters (h : Handle) (ltype : AtomType)
    (from to : Z) (cb : Handle -> T -> bool * T)
    (cb_lh : Handle -> Handle -> T -> bool * T) (data : DataPtr)
    (cl : ChaseLink T) (w : World T) :
  (exists rc cl' w',
     follow_link sp h ltype from to cb data (cl, w) = Some (rc, (cl', w')) /\
     match TLB_getAtom sp h with
     | Some atom =>
         forget_scratch cl' = search ltype atom from to (Some cb) None data
     | None => cl' = cl
     end) /\
  (exists rc cl' w',
     follow_link_lh sp h ltype from to cb_lh data (cl, w)
       = Some (rc, (cl', w')) /\
     match TLB_getAtom sp h with
     | Some atom =>
         forget_scratch cl' = search ltype atom from to None (Some cb_lh) data
     | None => cl' = cl
     end).
Proof.
  split.
  - unfold follow_link, foreach_incoming_atom.
    destruct (TLB_getAtom sp h) as [atom|].
    + unfold bind, modify_this. cbn [fst snd].
      match goal with
      | |- context [foreach_atom _ _ (?c, _)] => set (cl0 := c)
      end.
      destruct (chase_incoming sp (incoming_set sp h) cl0 w)
        as (rc & cl' & hp' & evs & E & Hs & _); [discriminate|].
      exists rc, cl', {| heap := hp'; trace := trace w ++ evs |}.
      split; [exact E|]. rewrite Hs. reflexivity.
    + exists false, cl, w. split; reflexivity.
  - unfold follow_link_lh, foreach_incoming_atom.
    destruct (TLB_getAtom sp h) as [atom|].
    + unfold bind, modify_this. cbn [fst snd].
      match goal with
      | |- context [foreach_atom _ _ (?c, _)] => set (cl0 := c)
      end.
      destruct (chase_incoming sp (incoming_set sp h) cl0 w)
        as (rc & cl' & hp' & evs & E & Hs & _); [discriminate|].
      exists rc, cl', {| heap := hp'; trace := trace w ++ evs |}.
      split; [exact E|]. rewrite Hs. reflexivity.
    + exists false, cl, w. split; reflexivity.
Qed.

(** Two chaser objects give an entry point the same result and the same
    final world. *)
Lemma follow_link_any_object (h : Handle) (ltype : AtomType) (from to : Z)
    (cb : Handle -> T -> bool * T) (data : DataPtr)
    (cl1 cl2 : ChaseLink T) (w : World T) :
  exists rc w',
    on_local cl1 (follow_link sp h ltype from to cb data) w = Some (rc, w') /\
    on_local cl2 (follow_link sp h ltype from to cb data) w = Some (rc, w').
Proof.
  unfold on_local. destruct (TLB_getAtom sp h) as [atom|] eqn:Hat.
  - destruct (follow_link_chase sp h ltype from to cb data atom cl1 w Hat)
      as (rc1 & cl1' & hp1 & evs1 & E1 & Hrun1).
    destruct (follow_link_chase sp h ltype from to cb data atom cl2 w Hat)
      as (rc2 & cl2' & hp2 & evs2 & E2 & Hrun2).
    destruct (chase_run_deterministic sp _ _ _ _ _ _ Hrun1 _ _ _ Hrun2)
      as (-> & -> & ->).
    rewrite E1, E2. eauto.
  - rewrite !follow_link_unresolved by assumption. eauto.
Qed.

Lemma follow_link_lh_any_object (h : Handle) (ltype : AtomType)
    (from to : Z) (cb : Handle -> Handle -> T -> bool * T) (data : DataPtr)
    (cl1 cl2 : ChaseLink T) (w : World T) :
  exists rc w',
    on_local cl1 (follow_link_lh sp h ltype from to cb data) w
      = Some (rc, w') /\
    on_local cl2 (follow_link_lh sp h ltype from to cb data) w
      = Some (rc, w').
Proof.
  unfold on_local. destruct (TLB_getAtom sp h) as [atom|] eqn:Hat.
  - destruct (follow_link_lh_chase sp h ltype from to cb data atom cl1 w Hat)
      as (rc1 & cl1' & hp1 & evs1 & E1 & Hrun1).
    destruct (follow_link_lh_chase sp h ltype from to cb data atom cl2 w Hat)
      as (rc2 & cl2' & hp2 & evs2 & E2 & Hrun2).
    destruct (chase_run_deterministic sp _ _ _ _ _ _ Hrun1 _ _ _ Hrun2)
      as (-> & -> & ->).
    rewrite E1, E2. eauto.
  - rewrite !follow_link_lh_unresolved by assumption. eauto.
Qed.

(** The four wrappers declare their chaser object without initialising it;
    whatever its fields hold, each wrapper is defined and gives the same
    result and the same final world. *)
Theorem wrappers_ignore_local_object (h : Handle) (ltype : AtomType)
    (cb : Handle -> T -> bool * T)
    (cb_lh : Handle -> Handle -> T -> bool * T) (data : DataPtr)
    (cl1 cl2 : ChaseLink T) (w : World T) :
  (exists rc w',
     follow_binary_link sp cl1 h ltype cb data w = Some (rc, w') /\
     follow_binary_link sp cl2 h ltype cb data w = Some (rc, w')) /\
  (exists rc w',
     follow_binary_link_lh sp cl1 h ltype cb_lh data w = Some (rc, w') /\
     follow_binary_link_lh sp cl2 h ltype cb_lh data w = Some (rc, w')) /\
  (exists rc w',
     backtrack_binary_link sp cl1 h ltype cb data w = Some (rc, w') /\
     backtrack_binary_link sp cl2 h ltype cb data w = Some (rc, w')) /\
  (exists rc w',
     backtrack_binary_link_lh sp cl1 h ltype cb_lh data w = Some (rc, w') /\
     backtrack_binary_link_lh sp cl2 h ltype cb_lh data w = Some (rc, w')).
Proof.
  repeat apply conj.
  - apply follow_link_any_object.
  - apply follow_link_lh_any_object.
  - apply follow_link_any_object.
  - apply follow_link_lh_any_object.
Qed.





End MoreProperties.

(** ** The scenario, run *)

Section ScenarioFacts.

Import Scenario.

(** The concrete scenario of the specification: the forward chase from [a]
    along inheritance links yields [b] then [c] and nothing from [L3]. *)
Example scenario_forward :
  match follow_binary_link store stale 1%N INHERITANCE_LINK collect 0%N world0
  with
  | Some (rc, w) => Some (rc, heap w 0%N, reported (trace w))
  | None => None
  end = Some (false, [2%N; 3%N], [(2%N, false); (3%N, false)]).
Proof. vm_compute. reflexivity. Qed.

(** The chase stops at the first answer [true]. *)
Example scenario_first_only :
  observe 0%N (follow_link store 1%N INHERITANCE_LINK 0 1 first_only 0%N
                 (stale, world0))
  = Some (true, [2%N], [Examine L1; Visit L1 2%N None true]).
Proof. vm_compute. reflexivity. Qed.

(** The link-aware chase hands each target over with the handle of its
    link: the collecting visitor's object ends as [(b, L1); (c, L2)]. *)
Example scenario_link_aware :
  observe 1%N (follow_link_lh store 1%N INHERITANCE_LINK 0 1 collect_pair 1%N
                 (stale_pair, world_pair))
  = Some (false, [(2%N, 4%N); (3%N, 5%N)],
          [Examine L1; Visit L1 2%N (Some 4%N) false;
           Examine L2; Visit L2 3%N (Some 5%N) false; Examine L3]).
Proof. vm_compute. reflexivity. Qed.

(** C1, where the code departs from it: the source position 2 is out of
    range for [L1 = (a, b)] and for [L2 = (a, c)], whose arity is 2, yet
    [follow_link] from [a] with positions (2, 1) invokes the visitor for
    both links, with [b] and with [c].  The walk never reaches index 2, so
    the identity test of the source position is never made and the target
    captured at index 1 stands. *)
Theorem source_past_arity_still_matches :
  Z.of_nat (length (outgoing_set store (TLB_getHandle store L1))) <= 2 /\
  Z.of_nat (length (outgoing_set store (TLB_getHandle store L2))) <= 2 /\
  observe 0%N (follow_link store 1%N INHERITANCE_LINK 2 1 collect 0%N
                 (stale, world0))
  = Some (false, [2%N; 3%N],
          [Examine L1; Visit L1 2%N None false;
           Examine L2; Visit L2 3%N None false; Examine L3]).
Proof. repeat split; try (cbn; lia). Qed.

(** C2, where the code departs from it: [b] occupies index 1 of
    [L1 = (a, b)], an inheritance link, and does not occupy index 5 (no
    member does); yet [follow_link] from [b] for inheritance links with
    source position 5 and target position 0 invokes the visitor for [L1],
    with [a]. *)
Theorem absent_source_still_visited :
  getType store L1 = INHERITANCE_LINK /\
  member_at (outgoing_set store (TLB_getHandle store L1)) 1
    = TLB_getAtom store 2%N /\
  member_at (outgoing_set store (TLB_getHandle store L1)) 5
    <> TLB_getAtom store 2%N /\
  observe 0%N (follow_link store 2%N INHERITANCE_LINK 5 0 collect 0%N
                 (stale, world0))
  = Some (false, [1%N], [Examine L1; Visit L1 1%N None false; Examine L3]).
Proof.
  split; [reflexivity|]. split; [reflexivity|].
  split; [discriminate|reflexivity].
Qed.

(** [nothing_to_chase] at the handle of [L1], which resolves and has an
    empty incoming set. *)
Lemma nothing_to_chase_witness :
  (TLB_getAtom store 4%N = None \/ incoming_set store 4%N = []) /\
  exists rc s' evs,
    runs_to (follow_link store 4%N INHERITANCE_LINK 0 1 collect 0%N)
      (stale, world0) rc s' evs /\
    rc = false /\ evs = [] /\ heap (snd s') = heap world0.
Proof.
  split; [right; reflexivity|].
  apply (nothing_to_chase store 4%N INHERITANCE_LINK 0 1 collect collect_lh
           0%N (stale, world0)).
  right; reflexivity.
Defined.

(** [binary_link_symmetry] at [L1 = (a, b)]. *)
Lemma binary_link_symmetry_witness :
  TLB_getAtom store 1%N = Some a /\ TLB_getAtom store 2%N = Some b /\
  In L1 (incoming_set store 1%N) /\ In L1 (incoming_set store 2%N) /\
  getType store L1 = INHERITANCE_LINK /\
  outgoing_set store (TLB_getHandle store L1) = [a; b] /\
  exists rc w' evs,
    returns_to (follow_binary_link store stale 1%N INHERITANCE_LINK collect
                  0%N) world0 rc w' evs /\
    calls_made (TargetOnly collect) evs (heap world0 0%N) (heap w' 0%N) /\
    reports L1 (TLB_getHandle store b) None evs.
Proof.
  repeat (split; [first [reflexivity | left; reflexivity]|]).
  apply (binary_link_symmetry store stale 1%N 2%N a b L1 INHERITANCE_LINK
           collect collect_lh 0%N world0);
    first [reflexivity | left; reflexivity].
Defined.

(** [link_aware_consistent] at a target-only visitor that collects the
    targets and a link-aware visitor that collects the targets with the
    link handles, related by the targets collected. *)
Lemma link_aware_consistent_witness :
  alike (fun seen pairs => seen = map fst pairs) collect collect_pair /\
  heap world0 0%N = map fst (heap world_pair 1%N) /\
  exists rc s1 s2 evs,
    runs_to (follow_link store 1%N INHERITANCE_LINK 0 1 collect 0%N)
      (stale, world0) rc s1 evs /\
    runs_to (follow_link_lh store 1%N INHERITANCE_LINK 0 1 collect_pair 1%N)
      (stale_pair, world_pair) rc s2 (map (with_link_handle store) evs) /\
    calls_made (TargetOnly collect) evs (heap world0 0%N) (heap (snd s1) 0%N) /\
    calls_made (LinkAware collect_pair) (map (with_link_handle store) evs)
      (heap world_pair 1%N) (heap (snd s2) 1%N) /\
    heap (snd s1) 0%N = map fst (heap (snd s2) 1%N) /\
    forall l t lh r, In (Visit l t lh r) evs ->
      lh = None /\ well_taken store 1%N INHERITANCE_LINK 1 l t.
Proof.
  assert (Halike : alike (fun seen pairs => seen = map fst pairs)
                     collect collect_pair).
  { intros tg l t1 t2 ->. split; [reflexivity|].
    cbn. rewrite map_app. reflexivity. }
  split; [exact Halike|]. split; [reflexivity|].
  apply (link_aware_consistent store (fun seen pairs => seen = map fst pairs)
           1%N INHERITANCE_LINK 0 1 collect collect_pair 0%N 1%N
           (stale, world0) (stale_pair, world_pair) Halike).
  reflexivity.
Defined.

End ScenarioFacts.

(** ** Instances of the conditional properties *)

Section ScenarioInstances.

Import Scenario.

(** [find_link_type_mismatch_continues] at [L1 = (a, b)] in a forward chase
    from [b]: the member at position 0 is [a]. *)
Lemma find_link_type_mismatch_continues_witness :
  visitor_of (search INHERITANCE_LINK b 0 1 (Some collect) None 0%N) 0%N 0%N
    <> None /\
  member_at (outgoing_set store (TLB_getHandle store L1)) 0 = Some a /\
  Some b <> Some a /\
  exists cl',
    find_link_type store L1
      (search INHERITANCE_LINK b 0 1 (Some collect) None 0%N, world0)
    = Some (false, (cl', {| heap := heap world0;
                            trace := trace world0 ++ [Examine L1] |})).
Proof.
  split; [discriminate|]. split; [reflexivity|]. split; [discriminate|].
  apply (find_link_type_mismatch_continues store L1 a
           (search INHERITANCE_LINK b 0 1 (Some collect) None 0%N) world0);
    [discriminate|reflexivity|discriminate].
Defined.

(** [absent_source_position_matches] at [L1 = (a, b)] with source
    position 2. *)
Lemma absent_source_position_matches_witness :
  TLB_getAtom store 1%N = Some a /\ In L1 (incoming_set store 1%N) /\
  getType store L1 = INHERITANCE_LINK /\
  member_at (outgoing_set store (TLB_getHandle store L1)) 2 = None /\
  member_at (outgoing_set store (TLB_getHandle store L1)) 1 = Some b /\
  exists rc s' evs,
    runs_to (follow_link store 1%N INHERITANCE_LINK 2 1 collect 0%N)
      (stale, world0) rc s' evs /\
    calls_made (TargetOnly collect) evs (heap world0 0%N) (heap (snd s') 0%N) /\
    reports L1 (TLB_getHandle store b) None evs.
Proof.
  repeat (split; [first [reflexivity | left; reflexivity]|]).
  apply (absent_source_position_matches store 1%N INHERITANCE_LINK 2 1
           collect collect_lh 0%N (stale, world0) a b L1);
    first [reflexivity | left; reflexivity].
Defined.

(** [stopping_visitor_sees_first_match] at the visitor that stops at once. *)
Lemma stopping_visitor_sees_first_match_witness :
  TLB_getAtom store 1%N = Some a /\
  (forall t x, fst (first_only t x) = true) /\
  (forall t (l : Handle) x, fst (first_only t x) = true) /\
  exists rc s' evs,
    runs_to (follow_link store 1%N INHERITANCE_LINK 0 1 first_only 0%N)
      (stale, world0) rc s' evs /\
    visits evs
      = firstn 1 (matches store (match_target store a INHERITANCE_LINK 0 1)
                    (incoming_set store 1%N)) /\
    (rc = true <->
     matches store (match_target store a INHERITANCE_LINK 0 1)
       (incoming_set store 1%N) <> []).
Proof.
  split; [reflexivity|]. split; [reflexivity|]. split; [reflexivity|].
  apply (stopping_visitor_sees_first_match store 1%N INHERITANCE_LINK 0 1
           first_only (fun t _ x => first_only t x) 0%N (stale, world0) a);
    reflexivity.
Defined.

End ScenarioInstances.
